(** * bin/harmonise.py: normalise values by type defined in the schema

    A shallow embedding of the harmoniser script and the properties its
    specification states about it.

    Conventions of the embedding.
    - A Python [str] is a [string]; a character is a code point below 256.
      The one character of the script outside that range, the curly quote
      removed by [normalise_address], therefore never occurs in a modelled
      string.
    - A [dict] is a [gmap]; a missing key read with [d[k]] raises [KeyError].
    - Module-level mutable names ([organisation_uri], [default_values],
      [field_enum], [field_value], [row_number], the rows written by
      [log_writer], and the loop variable [field] of the main block) are
      the fields of [globals], threaded through every function that reads
      or writes one of them.
    - An exception is a value of [exn]; a function that can raise returns
      an [outcome].
    - Library code the script calls but does not contain (pyproj's
      transformer, [validators.url], [re.sub] on patterns read from the
      schema) is a section variable.  The fixed regular expressions and
      the [strptime] patterns written in the script are modelled concretely,
      as are [int], [Decimal], [round], [normalize] and [str]. *)

From Stdlib Require Import ZArith NArith Ascii String DecimalString DecimalPos.
From stdpp Require Import base option list gmap strings sorting.

(** ** Exceptions *)

Inductive exn :=
| KeyError (key : string)
| ValueError (msg : string)
| NameError (name : string)
| InvalidOperation
| ReError (pattern : string).

Inductive outcome (A : Type) :=
| Return (a : A)
| Raise (e : exn).
Arguments Return {A} a.
Arguments Raise {A} e.

Definition obind {A B} (x : outcome A) (k : A → outcome B) : outcome B :=
  match x with
  | Return a => k a
  | Raise e => Raise e
  end.

Declare Scope outcome_scope.
Delimit Scope outcome_scope with outcome.
Notation "'let!' x ':=' e 'in' k" := (obind e (λ x, k))
  (at level 10, x pattern, e at level 100, k at level 200) : outcome_scope.

(** [d[k]] on a dict *)
Definition getitem {V} (d : gmap string V) (k : string) : outcome V :=
  match d !! k with
  | Some v => Return v
  | None => Raise (KeyError k)
  end.

(** ** Characters and [str] methods *)

Module Py.

Definition ord (c : ascii) : N := N_of_ascii c.

Definition between (lo hi : N) (c : ascii) : bool :=
  ((lo <=? ord c) && (ord c <=? hi))%N.

(** [str.isspace], which is also the class [\s] of a [str] pattern and the
    separator set of [str.split()] and [str.strip()] *)
Definition isspace (c : ascii) : bool :=
  between 9 13 c || between 28 32 c || (ord c =? 133)%N || (ord c =? 160)%N.

(** the white space [int()] accepts around a literal *)
Definition int_space (c : ascii) : bool :=
  between 9 13 c || (ord c =? 32)%N || (ord c =? 133)%N || (ord c =? 160)%N.

(** [\d] and the digits of [int()] and [Decimal()] below 256 *)
Definition isdigit (c : ascii) : bool := between 48 57 c.

Definition digit_val (c : ascii) : N := (ord c - 48)%N.

Definition lower_char (c : ascii) : ascii :=
  if between 65 90 c || (between 192 222 c && negb (ord c =? 215)%N)
  then ascii_of_N (ord c + 32)
  else c.

Fixpoint smap (f : ascii → ascii) (s : string) : string :=
  match s with
  | EmptyString => EmptyString
  | String c s' => String (f c) (smap f s')
  end.

Fixpoint sfilter (p : ascii → bool) (s : string) : string :=
  match s with
  | EmptyString => EmptyString
  | String c s' => if p c then String c (sfilter p s') else sfilter p s'
  end.

Fixpoint sall (p : ascii → bool) (s : string) : bool :=
  match s with
  | EmptyString => true
  | String c s' => p c && sall p s'
  end.

Definition is_empty (s : string) : bool :=
  match s with EmptyString => true | _ => false end.

(** [s.lower()] *)
Definition lower (s : string) : string := smap lower_char s.

Fixpoint lstrip (p : ascii → bool) (s : string) : string :=
  match s with
  | EmptyString => EmptyString
  | String c s' => if p c then lstrip p s' else s
  end.

Fixpoint rstrip (p : ascii → bool) (s : string) : string :=
  match s with
  | EmptyString => EmptyString
  | String c s' =>
      let r := rstrip p s' in
      if p c && is_empty r then EmptyString else String c r
  end.

(** the double quote *)
Definition dquote : ascii := "034"%char.

(** [s.strip(chars)], with [chars] given as a predicate *)
Definition strip (p : ascii → bool) (s : string) : string :=
  rstrip p (lstrip p s).

Definition one_of (chars : string) (c : ascii) : bool :=
  negb (sall (λ x, negb (Ascii.eqb x c)) chars).

(** [s.split(sep)] for a separator class of single characters: the pieces
    between separators, empty ones included *)
Fixpoint fields (p : ascii → bool) (s : string) : list string :=
  match s with
  | EmptyString => [EmptyString]
  | String c s' =>
      if p c then EmptyString :: fields p s'
      else match fields p s' with
           | w :: ws => String c w :: ws
           | [] => [String c EmptyString]
           end
  end.

(** [s.split()] *)
Definition split (s : string) : list string :=
  filter (λ w, w ≠ EmptyString) (fields isspace s).

(** [sep.join(l)] *)
Fixpoint join (sep : string) (l : list string) : string :=
  match l with
  | [] => EmptyString
  | [w] => w
  | w :: ws => w +:+ sep +:+ join sep ws
  end.

(** [s.replace(old, new)] for a non-empty [old]; [skip] counts the
    characters of a match still to be dropped *)
Fixpoint replace_from (old new : string) (skip : nat) (s : string) : string :=
  match s with
  | EmptyString => EmptyString
  | String c s' =>
      match skip with
      | S n => replace_from old new n s'
      | O =>
          if String.prefix old s
          then new +:+ replace_from old new (String.length old - 1) s'
          else String c (replace_from old new 0 s')
      end
  end.

Definition replace (old new s : string) : string := replace_from old new 0 s.

(** [sub in s] *)
Fixpoint contains (sub s : string) : bool :=
  String.prefix sub s ||
  match s with
  | EmptyString => false
  | String _ s' => contains sub s'
  end.

(** [str(n)] for an [int] *)
Definition str_of_Z (z : Z) : string := NilZero.string_of_int (Z.to_int z).
Definition str_of_N (n : N) : string := NilZero.string_of_uint (N.to_uint n).

(** the value of a run of decimal digits *)
Definition N_of_digits (s : string) : N :=
  let fix go (acc : N) (s : string) : N :=
    match s with
    | EmptyString => acc
    | String c s' => go (10 * acc + digit_val c)%N s'
    end in
  go 0%N s.

(** [int(s)]: optional white space, an optional sign, digits with single
    underscores between them, optional white space *)
Fixpoint int_digits (prev_digit : bool) (acc : N) (s : string) : option N :=
  match s with
  | EmptyString => if prev_digit then Some acc else None
  | String c s' =>
      if isdigit c then int_digits true (10 * acc + digit_val c)%N s'
      else if Ascii.eqb c "_" && prev_digit
           then match s' with
                | String d _ => if isdigit d then int_digits false acc s' else None
                | EmptyString => None
                end
           else None
  end.

Definition int (s : string) : outcome Z :=
  let body := strip int_space s in
  let (neg, ds) :=
    match body with
    | String "-" r => (true, r)
    | String "+" r => (false, r)
    | _ => (false, body)
    end in
  match int_digits false 0%N ds with
  | Some n => Return (if neg then - Z.of_N n else Z.of_N n)%Z
  | None => Raise (ValueError ("invalid literal for int() with base 10: " +:+ s))
  end.

End Py.

(** ** [decimal.Decimal] under the default context

    Precision 28, rounding [ROUND_HALF_EVEN], [Emax = 999999],
    [Emin = -999999], [InvalidOperation] trapped.  A finite value is
    [(-1)^sign * coeff * 10^exp]; the coefficient is a number rather than
    its digit string, which loses nothing because the library keeps the
    digit string free of leading zeros. *)

Module Dec.

Inductive t :=
| Fin (sign : bool) (coeff : N) (exp : Z)
| Inf (sign : bool)
| NaN (sign : bool) (signalling : bool) (payload : N).

Definition prec : Z := 28.
Definition Emax : Z := 999999.
Definition Emin : Z := -999999.
Definition Etiny : Z := Emin - prec + 1.

Definition ndigits (c : N) : Z := Z.of_nat (String.length (Py.str_of_N c)).

(** [self.adjusted()] *)
Definition adjusted (c : N) (e : Z) : Z := e + ndigits c - 1.

(** longest prefix of digits, and what follows it *)
Fixpoint span_digits (s : string) : string * string :=
  match s with
  | String c s' =>
      if Py.isdigit c
      then let (d, r) := span_digits s' in (String c d, r)
      else (EmptyString, s)
  | EmptyString => (EmptyString, EmptyString)
  end.

Definition parse_sign (s : string) : bool * string :=
  match s with
  | String "-" r => (true, r)
  | String "+" r => (false, r)
  | _ => (false, s)
  end.

(** the exponent part [(E[-+]?\d+)?\Z] of a numeric string *)
Definition parse_exp (s : string) : option Z :=
  match s with
  | EmptyString => Some 0%Z
  | String c r =>
      if Ascii.eqb (Py.lower_char c) "e"
      then let (neg, ds) := parse_sign r in
           if negb (Py.is_empty ds) && Py.sall Py.isdigit ds
           then Some (if neg then - Z.of_N (Py.N_of_digits ds)
                      else Z.of_N (Py.N_of_digits ds))%Z
           else None
      else None
  end.

(** [Decimal(s)] for a [str]: surrounding white space is stripped and
    underscores removed, then the text must be a number, an infinity or a
    NaN.  The pure-Python reference parser is followed; it puts no bound on
    the exponent (the C accelerator rejects exponents beyond 18 digits). *)
Definition of_string (s : string) : outcome t :=
  let v := Py.sfilter (λ c, negb (Ascii.eqb c "_")) (Py.strip Py.isspace s) in
  let (sign, body) := parse_sign v in
  let low := Py.lower body in
  if String.eqb low "inf" || String.eqb low "infinity" then Return (Inf sign)
  else
    let nan_payload (ds : string) : option N :=
      if Py.sall Py.isdigit ds then Some (Py.N_of_digits ds) else None in
    match low with
    | String "n" (String "a" (String "n" ds)) =>
        match nan_payload ds with
        | Some p => Return (NaN sign false p)
        | None => Raise InvalidOperation
        end
    | String "s" (String "n" (String "a" (String "n" ds))) =>
        match nan_payload ds with
        | Some p => Return (NaN sign true p)
        | None => Raise InvalidOperation
        end
    | _ =>
        let (ip, r1) := span_digits body in
        let '(fp, r2) :=
          match r1 with
          | String "." r => span_digits r
          | _ => (EmptyString, r1)
          end in
        if Py.is_empty ip && Py.is_empty fp then Raise InvalidOperation
        else match parse_exp r2 with
             | Some e =>
                 Return (Fin sign (Py.N_of_digits (ip +:+ fp))
                             (e - Z.of_nat (String.length fp)))
             | None => Raise InvalidOperation
             end
    end.

(** the coefficient of [c * 10^(-shift)] rounded half to even, [shift > 0];
    this is what [_rescale] with [_round_half_even] computes on the digit
    string *)
Definition round_half_even (c : N) (shift : Z) : N :=
  let p := (10 ^ Z.to_N shift)%N in
  let q := (c / p)%N in
  let r := (c mod p)%N in
  if (p <? 2 * r)%N || ((2 * r =? p)%N && N.odd q) then (q + 1)%N else q.

(** [self._rescale(target, ROUND_HALF_EVEN)]; [digits] counts the digits
    of the coefficient that survive, and a value more than one digit below
    the target position rounds to zero *)
Definition rescale (sign : bool) (c : N) (e target : Z) : t :=
  if (c =? 0)%N then Fin sign 0 target
  else if (target <=? e)%Z then Fin sign (c * 10 ^ Z.to_N (e - target)) target
  else
    let digits := (ndigits c + e - target)%Z in
    if (digits <? 0)%Z then Fin sign 0 target
    else Fin sign (round_half_even c (target - e)) target.

(** [_fix_nan]: a payload longer than the precision keeps its last digits *)
Definition fix_nan (sign : bool) (p : N) : t :=
  NaN sign false (if (ndigits p <=? prec)%Z then p else p mod 10 ^ Z.to_N prec)%N.

(** [self.quantize(Decimal((0, (1,), target)))] *)
Definition quantize (d : t) (target : Z) : outcome t :=
  match d with
  | NaN _ true _ => Raise InvalidOperation
  | NaN s false p => Return (fix_nan s p)
  | Inf _ => Raise InvalidOperation
  | Fin s c e =>
      if negb ((Etiny <=? target) && (target <=? Emax))%Z then Raise InvalidOperation
      else if (c =? 0)%N then Return (Fin s 0 target)
      else if (Emax <? adjusted c e)%Z then Raise InvalidOperation
      else if (prec <? adjusted c e - target + 1)%Z then Raise InvalidOperation
      else
        match rescale s c e target with
        | Fin s' c' e' =>
            if (Emax <? adjusted c' e')%Z then Raise InvalidOperation
            else if (prec <? ndigits c')%Z then Raise InvalidOperation
            else Return (Fin s' c' e')
        | other => Return other
        end
  end.

(** [round(d, n)], the two-argument form of [Decimal.__round__] *)
Definition round (d : t) (n : Z) : outcome t := quantize d (- n).

(** the loop of [normalize]: drop trailing zeros of the coefficient while
    the exponent stays below [Emax] *)
Fixpoint strip_zeros (fuel : nat) (c : N) (e : Z) : N * Z :=
  match fuel with
  | O => (c, e)
  | S n =>
      if ((c mod 10 =? 0)%N && (e <? Emax)%Z)
      then strip_zeros n (c / 10)%N (e + 1)%Z
      else (c, e)
  end.

(** [d.normalize()] on a value that [quantize] returned, where the
    rounding to context precision that [normalize] starts with changes
    nothing *)
Definition normalize (d : t) : outcome t :=
  match d with
  | NaN _ true _ => Raise InvalidOperation
  | NaN s false p => Return (fix_nan s p)
  | Inf s => Return (Inf s)
  | Fin s c e =>
      if (c =? 0)%N then Return (Fin s 0 0)
      else let (c', e') := strip_zeros (Z.to_nat (ndigits c)) c e in
           Return (Fin s c' e')
  end.

Fixpoint zeros (n : nat) : string :=
  match n with
  | O => EmptyString
  | S m => String "0" (zeros m)
  end.

Fixpoint take (n : nat) (s : string) : string :=
  match n, s with
  | S m, String c s' => String c (take m s')
  | _, _ => EmptyString
  end.

Fixpoint drop (n : nat) (s : string) : string :=
  match n, s with
  | S m, String _ s' => drop m s'
  | _, _ => s
  end.

(** [str(d)]: scientific notation as soon as the exponent is positive or
    more than six zeros would follow the point *)
Definition to_string (d : t) : string :=
  match d with
  | Inf s => (if s then "-" else "") +:+ "Infinity"
  | NaN s sig p =>
      (if s then "-" else "") +:+ (if sig then "sNaN" else "NaN") +:+
      (if (p =? 0)%N then "" else Py.str_of_N p)
  | Fin s c e =>
      let ds := Py.str_of_N c in
      let len := Z.of_nat (String.length ds) in
      let leftdigits := (e + len)%Z in
      let dotplace := if ((e <=? 0) && (-6 <? leftdigits))%Z then leftdigits else 1%Z in
      let intpart :=
        if (dotplace <=? 0)%Z then "0"
        else if (len <=? dotplace)%Z then ds +:+ zeros (Z.to_nat (dotplace - len))
        else take (Z.to_nat dotplace) ds in
      let fracpart :=
        if (dotplace <=? 0)%Z then "." +:+ zeros (Z.to_nat (- dotplace)) +:+ ds
        else if (len <=? dotplace)%Z then ""
        else "." +:+ drop (Z.to_nat dotplace) ds in
      let exp :=
        if (leftdigits =? dotplace)%Z then ""
        else "E" +:+ (if (0 <=? leftdigits - dotplace)%Z then "+" else "") +:+
             Py.str_of_Z (leftdigits - dotplace) in
      (if s then "-" else "") +:+ intpart +:+ fracpart +:+ exp
  end.

End Dec.

(** ** Python floats, as far as the script meets them: the constants of
    [within_england] and what the transformer returns.  A finite float is
    [(-1)^neg * num / 2^den_log2]. *)

Inductive pyfloat :=
| FFin (neg : bool) (num : N) (den_log2 : N)
| FInf (neg : bool)
| FNaN.

(** [Decimal(f)] for a float: exact *)
Definition Decimal_of_float (f : pyfloat) : Dec.t :=
  match f with
  | FFin s n k => Dec.Fin s (n * 5 ^ k) (- Z.of_N k)
  | FInf s => Dec.Inf s
  | FNaN => Dec.NaN false false 0
  end.

(** A value on the extended rational line, [n / d] *)
Inductive extended :=
| Finite (n : Z) (d : positive)
| PlusInf
| MinusInf.

Definition signed (s : bool) (n : N) : Z := if s then (- Z.of_N n)%Z else Z.of_N n.

Definition extended_of_Decimal (d : Dec.t) : option extended :=
  match d with
  | Dec.Fin s c e =>
      Some (if (0 <=? e)%Z
            then Finite (signed s c * 10 ^ e) 1
            else Finite (signed s c) (Z.to_pos (10 ^ (- e))))
  | Dec.Inf s => Some (if s then MinusInf else PlusInf)
  | Dec.NaN _ _ _ => None
  end.

Definition extended_of_float (f : pyfloat) : option extended :=
  match f with
  | FFin s n k => Some (Finite (signed s n) (Z.to_pos (2 ^ Z.of_N k)))
  | FInf s => Some (if s then MinusInf else PlusInf)
  | FNaN => None
  end.

(** [x < y] on the extended line *)
Definition ext_ltb (x y : extended) : bool :=
  match x, y with
  | Finite a b, Finite c d => (a * Z.pos d <? c * Z.pos b)%Z
  | MinusInf, MinusInf => false
  | MinusInf, _ => true
  | _, PlusInf => match x with PlusInf => false | _ => true end
  | _, _ => false
  end.

(** The values [within_england] is called on: a [Decimal] read from the
    row, or a float returned by the transformer. *)
Inductive number :=
| NDec (d : Dec.t)
| NFloat (f : pyfloat).

(** [x < c] and [x > c] against a float or int constant [c].  An ordering
    comparison of a [Decimal] NaN signals [InvalidOperation]; with a float
    NaN it is false. *)
Definition num_lt (x : number) (c : extended) : outcome bool :=
  match x with
  | NDec d =>
      match extended_of_Decimal d with
      | Some v => Return (ext_ltb v c)
      | None => Raise InvalidOperation
      end
  | NFloat f =>
      match extended_of_float f with
      | Some v => Return (ext_ltb v c)
      | None => Return false
      end
  end.

Definition num_gt (x : number) (c : extended) : outcome bool :=
  match x with
  | NDec d =>
      match extended_of_Decimal d with
      | Some v => Return (ext_ltb c v)
      | None => Raise InvalidOperation
      end
  | NFloat f =>
      match extended_of_float f with
      | Some v => Return (ext_ltb c v)
      | None => Return false
      end
  end.

(** [Decimal(value)] for what [format_decimal] receives *)
Definition Decimal_of_number (x : number) : Dec.t :=
  match x with
  | NDec d => d
  | NFloat f => Decimal_of_float f
  end.

(** ** [datetime.strptime] and [strftime]

    [strptime] turns the format into a regular expression, each directive
    an alternation tried left to right, white space in the format the
    class run [\s+], every other character itself (letters in either
    case, the expression being compiled with [IGNORECASE]).  It takes the
    first match a backtracking matcher finds from the start of the text and
    then refuses text left over.  The matcher below lists every match in
    that search order, so its head is the match [re] returns.  English
    month names (the C locale) are assumed. *)

Module Strptime.

Inductive directive :=
| Dir (letter : ascii)
| Lit (c : ascii)
| Spaces.

Fixpoint parse_format (after_space : bool) (fmt : string) : list directive :=
  match fmt with
  | EmptyString => []
  | String "%" (String k rest) => Dir k :: parse_format false rest
  | String c rest =>
      if Py.isspace c
      then if after_space then parse_format true rest
           else Spaces :: parse_format true rest
      else Lit c :: parse_format false rest
  end.

Definition chr_in (lo hi : ascii) (c : ascii) : bool :=
  Py.between (Py.ord lo) (Py.ord hi) c.

(** a two-character alternative [[p1][p2]] and a one-character one, with
    the number their text denotes *)
Definition alt2 (p1 p2 : ascii → bool) (s : string) : list (N * string) :=
  match s with
  | String a (String b r) =>
      if p1 a && p2 b
      then [((if Py.isdigit a then 10 * Py.digit_val a else 0) + Py.digit_val b, r)%N]
      else []
  | _ => []
  end.

Definition alt1 (p : ascii → bool) (s : string) : list (N * string) :=
  match s with
  | String a r => if p a then [(Py.digit_val a, r)] else []
  | _ => []
  end.

Definition chr_is (x : ascii) (c : ascii) : bool := Ascii.eqb x c.

(** a name of the alternation, in either case *)
Definition name_alt (name : string) (value : N) (s : string) : list (N * string) :=
  if String.eqb name (Py.lower (Dec.take (String.length name) s))
  then [(value, Dec.drop (String.length name) s)]
  else [].

Definition names_alt (names : list (string * N)) (s : string) : list (N * string) :=
  flat_map (λ '(n, v), name_alt n v s) names.

Definition four_digits (s : string) : list (N * string) :=
  match s with
  | String a (String b (String c (String d r))) =>
      if Py.isdigit a && Py.isdigit b && Py.isdigit c && Py.isdigit d
      then [(Py.N_of_digits (String a (String b (String c (String d EmptyString)))), r)]
      else []
  | _ => []
  end.

(** the alternation of one directive; a directive [strptime] does not
    know makes it raise [ValueError], as a text that does not match does,
    and has no alternative here *)
Definition match_dir (k : ascii) (s : string) : list (N * string) :=
  match k with
  | "d"%char => alt2 (chr_is "3") (chr_in "0" "1") s ++ alt2 (chr_in "1" "2") Py.isdigit s ++
           alt2 (chr_is "0") (chr_in "1" "9") s ++ alt1 (chr_in "1" "9") s ++
           alt2 (chr_is " ") (chr_in "1" "9") s
  | "m"%char => alt2 (chr_is "1") (chr_in "0" "2") s ++ alt2 (chr_is "0") (chr_in "1" "9") s ++
           alt1 (chr_in "1" "9") s
  | "Y"%char => four_digits s
  | "y"%char => alt2 Py.isdigit Py.isdigit s
  | "H"%char => alt2 (chr_is "2") (chr_in "0" "3") s ++ alt2 (chr_in "0" "1") Py.isdigit s ++
           alt1 Py.isdigit s
  | "M"%char => alt2 (chr_in "0" "5") Py.isdigit s ++ alt1 Py.isdigit s
  | "S"%char => alt2 (chr_is "6") (chr_in "0" "1") s ++ alt2 (chr_in "0" "5") Py.isdigit s ++
           alt1 Py.isdigit s
  | "b"%char => names_alt
             [("jan", 1); ("feb", 2); ("mar", 3); ("apr", 4); ("may", 5); ("jun", 6);
              ("jul", 7); ("aug", 8); ("sep", 9); ("oct", 10); ("nov", 11);
              ("dec", 12)]%N s
  | "B"%char => names_alt
             [("september", 9); ("february", 2); ("november", 11); ("december", 12);
              ("january", 1); ("october", 10); ("august", 8); ("march", 3);
              ("april", 4); ("june", 6); ("july", 7); ("may", 5)]%N s
  | _ => []
  end.

(** [\s+]: what is left after one or more white-space characters, the
    longest run first *)
Fixpoint spaces_alts (s : string) : list string :=
  match s with
  | String c r => if Py.isspace c then spaces_alts r ++ [r] else []
  | EmptyString => []
  end.

Definition found_dict := list (ascii * N).

(** every match of the expression from the start of [s], in search order,
    with the groups found and the text left over *)
Fixpoint match_seq (ds : list directive) (found : found_dict) (s : string)
  : list (found_dict * string) :=
  match ds with
  | [] => [(found, s)]
  | Dir k :: ds' =>
      flat_map (λ '(v, r), match_seq ds' ((k, v) :: found) r) (match_dir k s)
  | Lit c :: ds' =>
      match s with
      | String a r =>
          if Ascii.eqb (Py.lower_char a) (Py.lower_char c)
          then match_seq ds' found r
          else []
      | EmptyString => []
      end
  | Spaces :: ds' => flat_map (match_seq ds' found) (spaces_alts s)
  end.

Fixpoint group (k : ascii) (found : found_dict) : option N :=
  match found with
  | [] => None
  | (k', v) :: rest => if Ascii.eqb k k' then Some v else group k rest
  end.

Record date := { year : N; month : N; day : N }.

Definition is_leap (y : N) : bool :=
  ((y mod 4 =? 0) && (negb (y mod 100 =? 0) || (y mod 400 =? 0)))%N.

Definition days_in_month (y m : N) : N :=
  match m with
  | 2 => if is_leap y then 29 else 28
  | 4 | 6 | 9 | 11 => 30
  | _ => 31
  end%N.

(** the range checks of the [date] and [datetime] constructors *)
Definition valid_date (y m d : N) : bool :=
  ((1 <=? y) && (y <=? 9999) && (1 <=? m) && (m <=? 12) &&
   (1 <=? d) && (d <=? days_in_month y m))%N.

Definition or_else (a b : option N) : option N :=
  match a with Some _ => a | None => b end.

(** the fields of the date from the groups found: a two-digit year up to
    68 is in the 2000s, a missing year is 1900, a missing month or day 1 *)
Definition date_of_found (found : found_dict) : outcome date :=
  let y :=
    match group "Y" found, group "y" found with
    | Some y, _ => y
    | None, Some y => (if y <=? 68 then 2000 + y else 1900 + y)%N
    | None, None => 1900%N
    end in
  let m := from_option id 1%N
             (or_else (group "m" found) (or_else (group "B" found) (group "b" found))) in
  let d := from_option id 1%N (group "d" found) in
  let sec := from_option id 0%N (group "S" found) in
  if valid_date y m d && (sec <=? 59)%N
  then Return {| year := y; month := m; day := d |}
  else Raise (ValueError "day is out of range for month").

(** [datetime.strptime(value, fmt)], as far as the date goes *)
Definition strptime (value fmt : string) : outcome date :=
  match match_seq (parse_format false fmt) [] value with
  | [] => Raise (ValueError "time data does not match format")
  | (found, rest) :: _ =>
      if Py.is_empty rest then date_of_found found
      else Raise (ValueError "unconverted data remains")
  end.

Definition pad2 (n : N) : string :=
  if (n <? 10)%N then String "0" (Py.str_of_N n) else Py.str_of_N n.

(** [d.strftime("%Y-%m-%d")]; the C library writes a year below 1000
    without leading zeros *)
Definition strftime (d : date) : string :=
  Py.str_of_N (year d) +:+ "-" +:+ pad2 (month d) +:+ "-" +:+ pad2 (day d).

End Strptime.

(** ** The fixed regular expressions of the script *)

Module Re.

(** [0+$] from the start of [s]: one or more zeros up to the end of the
    text or up to a final newline, which is then what is left *)
Fixpoint zeros_then_end (seen : bool) (s : string) : option string :=
  match s with
  | EmptyString => if seen then Some EmptyString else None
  | String c r =>
      if Ascii.eqb c "0" then zeros_then_end true r
      else if seen && Ascii.eqb c "010" && Py.is_empty r then Some s
      else None
  end.

(** [re.compile(r"\.0+$").sub("", s, 1)]: the leftmost match goes *)
Fixpoint sub_dot_zeros (s : string) : string :=
  match s with
  | EmptyString => EmptyString
  | String c r =>
      match (if Ascii.eqb c "." then zeros_then_end false r else None) with
      | Some rest => rest
      | None => String c (sub_dot_zeros r)
      end
  end.

(** [re.compile(r".*/").sub("", s)]: [.] stops at a newline, so in every
    line the text up to its last slash goes *)
Definition sub_upto_slash (s : string) : string :=
  Py.join (String "010" EmptyString)
          (map (λ line, List.last (Py.fields (Ascii.eqb "/") line) EmptyString)
               (Py.fields (Ascii.eqb "010") s)).

Fixpoint take_while (p : ascii → bool) (s : string) : string :=
  match s with
  | String c r => if p c then String c (take_while p r) else EmptyString
  | EmptyString => EmptyString
  end.

(** [regex.sub(repl, s)] for the two patterns of [normalise_address], one
    or more groups of a mark (a comma, a hyphen) with optional white space
    on both sides: every maximal run of white space and marks that holds a
    mark becomes [repl]; [skip] counts the characters of a match still to
    be dropped *)
Fixpoint sub_run (mark : ascii) (repl : string) (skip : nat) (s : string) : string :=
  match s with
  | EmptyString => EmptyString
  | String c r =>
      match skip with
      | S n => sub_run mark repl n r
      | O =>
          let run := take_while (λ x, Py.isspace x || Ascii.eqb x mark) s in
          if negb (Py.sall (λ x, negb (Ascii.eqb x mark)) run)
          then repl +:+ sub_run mark repl (String.length run - 1) r
          else String c (sub_run mark repl 0 r)
      end
  end.

(** the class [[a-z0-9-_ ]] *)
Definition enum_char (c : ascii) : bool :=
  Py.between 97 122 c || Py.isdigit c || Ascii.eqb c "-" || Ascii.eqb c "_" ||
  Ascii.eqb c " ".

(** [re.compile(r"([^a-z0-9-_ ]+)").sub(" ", s)]: every maximal run of
    characters outside the class becomes one space *)
Fixpoint sub_not_enum (in_run : bool) (s : string) : string :=
  match s with
  | EmptyString => EmptyString
  | String c r =>
      if enum_char c then String c (sub_not_enum false r)
      else if in_run then sub_not_enum true r
      else String " " (sub_not_enum true r)
  end.

End Re.

(** ** The schema and the module-level state *)

(** the ["digital-land"] block of a field; an absent key is the default
    its [get] call names *)
Record extension := {
  ext_strip : list string;
  ext_precision : option Z;
  ext_format : string;
}.

(** one entry of [schema["fields"]]; [type] and [format] are [""] when
    absent, as [field.get(..., "")] reads them, and [constraints_enum] is
    [None] when the field has no [constraints] or no [enum] in it *)
Record field_spec := {
  name : string;
  type : string;
  format : string;
  constraints_enum : option (list string);
  digital_land : extension;
}.

Record schema_t := {
  schema_fields : list field_spec;
  duplicate : list string;
}.

(** a row written by [log_writer] *)
Record issue := {
  issue_row_number : N;
  issue_field : string;
  issue_datatype : string;
  issue_value : string;
}.

(** the module-level names that change while the script runs; [field] is
    the loop variable of the main block, unbound until the loop starts *)
Record globals := {
  organisation_uri : gmap string string;
  default_values : gmap string string;
  field_enum : gmap string (gmap string string);
  field_value : gmap string (gmap string string);
  row_number : N;
  log : list issue;
  field : option string;
}.

Definition initial_globals : globals := {|
  organisation_uri := ∅;
  default_values := ∅;
  field_enum := ∅;
  field_value := ∅;
  row_number := 0;
  log := [];
  field := None;
|}.

Definition set_organisation_uri (v : gmap string string) (g : globals) : globals :=
  {| organisation_uri := v; default_values := default_values g;
     field_enum := field_enum g; field_value := field_value g;
     row_number := row_number g; log := log g; field := field g |}.
Definition set_default_values (v : gmap string string) (g : globals) : globals :=
  {| organisation_uri := organisation_uri g; default_values := v;
     field_enum := field_enum g; field_value := field_value g;
     row_number := row_number g; log := log g; field := field g |}.
Definition set_field_enum (v : gmap string (gmap string string)) (g : globals) : globals :=
  {| organisation_uri := organisation_uri g; default_values := default_values g;
     field_enum := v; field_value := field_value g;
     row_number := row_number g; log := log g; field := field g |}.
Definition set_field_value (v : gmap string (gmap string string)) (g : globals) : globals :=
  {| organisation_uri := organisation_uri g; default_values := default_values g;
     field_enum := field_enum g; field_value := v;
     row_number := row_number g; log := log g; field := field g |}.
Definition set_row_number (v : N) (g : globals) : globals :=
  {| organisation_uri := organisation_uri g; default_values := default_values g;
     field_enum := field_enum g; field_value := field_value g;
     row_number := v; log := log g; field := field g |}.
Definition set_log (v : list issue) (g : globals) : globals :=
  {| organisation_uri := organisation_uri g; default_values := default_values g;
     field_enum := field_enum g; field_value := field_value g;
     row_number := row_number g; log := v; field := field g |}.
Definition set_field (v : option string) (g : globals) : globals :=
  {| organisation_uri := organisation_uri g; default_values := default_values g;
     field_enum := field_enum g; field_value := field_value g;
     row_number := row_number g; log := log g; field := v |}.

(** ** Computations over the module state *)

Definition M (A : Type) : Type := globals → outcome A * globals.

Definition ret {A} (a : A) : M A := λ g, (Return a, g).
Definition raise {A} (e : exn) : M A := λ g, (Raise e, g).
Definition lift {A} (o : outcome A) : M A := λ g, (o, g).
Definition bind {A B} (m : M A) (k : A → M B) : M B :=
  λ g, match m g with
       | (Return a, g') => k a g'
       | (Raise e, g') => (Raise e, g')
       end.

Declare Scope M_scope.
Delimit Scope M_scope with M.
Notation "'let*' x ':=' e 'in' k" := (bind e (λ x, k))
  (at level 10, x pattern, e at level 100, k at level 200) : M_scope.
Notation "e ';;' k" := (bind e (λ _, k))
  (at level 100, k at level 200, right associativity) : M_scope.

(** a [for] loop whose body can raise *)
Fixpoint for_each {A} (l : list A) (body : A → M unit) : M unit :=
  match l with
  | [] => ret ()
  | x :: rest => bind (body x) (λ _, for_each rest body)
  end.

(** a row of a [csv.DictReader] or the record under construction *)
Abbreviation row := (gmap string string).

(** ** The script *)

Section Harmonise.

(** [schema = json.load(open(schema_path))] *)
Variable schema : schema_t.

(** [osgb_to_wgs84.transform(x, y)]: two floats, latitude first *)
Variable transform : Dec.t → Dec.t → pyfloat * pyfloat.

(** [validators.url(uri)], read as a truth value *)
Variable validators_url : string → bool.

(** [re.sub(pattern, repl, s)] for a pattern read from the schema; it
    raises when the pattern does not compile *)
Variable re_sub : string → string → string → outcome string.

Local Open Scope M_scope.

(** [fields = {field["name"]: field for field in schema["fields"]}] *)
Definition fields : gmap string field_spec :=
  foldl (λ m f, <[name f := f]> m) ∅ (schema_fields schema).

Definition fieldnames : list string := map name (schema_fields schema).

Definition log_issue (fieldname datatype value : string) : M unit :=
  λ g, (Return (),
        set_log (log g ++ [{| issue_row_number := row_number g;
                              issue_field := fieldname;
                              issue_datatype := datatype;
                              issue_value := value |}]) g).

Definition format_integer (value : Z) : string := Py.str_of_Z value.

(** the default of the [precision] parameter of [format_decimal] *)
Definition default_precision : Z := 6.

Definition format_decimal (value : number) (precision : Z) : outcome string :=
  (let! r := Dec.round (Decimal_of_number value) precision in
   let! n := Dec.normalize r in
   Return (Dec.to_string n))%outcome.

Definition normalise_integer (fieldname value : string) : M string :=
  let value := Re.sub_dot_zeros value in
  match Py.int value with
  | Raise _ => log_issue fieldname "integer" value ;; ret ""
  | Return n => ret (format_integer n)
  end.

(** [precision] is received and not passed on: [format_decimal(d)] runs
    with its default *)
Definition normalise_decimal (fieldname value : string) (precision : Z) : M string :=
  match Dec.of_string value with
  | Raise _ => log_issue fieldname "decimal" value ;; ret ""
  | Return d => lift (format_decimal (NDec d) default_precision)
  end.

(** [a and b], [b] evaluated only when [a] is true *)
Definition and_then (a b : outcome bool) : outcome bool :=
  (let! x := a in if x then b else Return false)%outcome.

Definition within_england (geox geoy : number) : outcome bool :=
  and_then (num_gt geoy (Finite 99 2))
    (and_then (num_lt geoy (Finite 56 1))
       (and_then (num_gt geox (Finite (-7) 1)) (num_lt geox (Finite 2 1)))).

(** [row.get(k, "")] *)
Definition get_or_empty (r : row) (k : string) : string := from_option id "" (r !! k).

Definition set_geometry (r : row) (lon lat : number) : M row :=
  let* x := lift (format_decimal lon default_precision) in
  let r := <["GeoX" := x]> r in
  let* y := lift (format_decimal lat default_precision) in
  ret (<["GeoY" := y]> r).

Definition normalise_geometry (r : row) : M row :=
  if Py.is_empty (get_or_empty r "GeoX") || Py.is_empty (get_or_empty r "GeoY")
  then ret r
  else
    let* gx := lift (getitem r "GeoX") in
    let* geox := lift (Dec.of_string gx) in
    let* gy := lift (getitem r "GeoY") in
    let* geoy := lift (Dec.of_string gy) in
    let r := <["GeoX" := ""]> r in
    let r := <["GeoY" := ""]> r in
    (* [isinstance(geox, str) or isinstance(geoy, str)] is false of a Decimal *)
    let* direct := lift (within_england (NDec geox) (NDec geoy)) in
    if direct then set_geometry r (NDec geox) (NDec geoy)
    else
      let* swapped := lift (within_england (NDec geoy) (NDec geox)) in
      if swapped then set_geometry r (NDec geoy) (NDec geox)
      else
        let '(lat, lon) := transform geox geoy in
        let* ok := lift (within_england (NFloat lon) (NFloat lat)) in
        if negb ok then
          let '(lat, lon) := transform geoy geox in
          let* ok := lift (within_england (NFloat lon) (NFloat lat)) in
          if negb ok then
            let* x := lift (getitem r "GeoX") in
            let* y := lift (getitem r "GeoY") in
            log_issue "GeoX,GeoY" "OSGB" (Py.join "," [x; y]) ;;
            ret r
          else set_geometry r (NFloat lon) (NFloat lat)
        else set_geometry r (NFloat lon) (NFloat lat).

Definition lower_uri (value : string) : string :=
  Py.lower (Py.join "" (Py.split value)).

Definition end_of_uri (value : string) : string :=
  Re.sub_upto_slash (Py.lower (Py.rstrip (Ascii.eqb "/") value)).

(** [organisation_uri[k] = v] *)
Definition organisation_uri_set (k v : string) : M unit :=
  λ g, (Return (), set_organisation_uri (<[k := v]> (organisation_uri g)) g).

(** the first loop of [load_organisations]; [organisation] is its local
    dict *)
Fixpoint load_organisation_rows (rows : list row) (organisation : gmap string row)
  : M (gmap string row) :=
  match rows with
  | [] => ret organisation
  | r :: rest =>
      let* org := lift (getitem r "organisation") in
      let organisation := <[org := r]> organisation in
      (match r !! "opendatacommunities" with
       | Some odc =>
           let uri := Py.lower odc in
           organisation_uri_set (Py.lower org) uri ;;
           organisation_uri_set uri uri ;;
           organisation_uri_set (end_of_uri uri) uri ;;
           let* sg := lift (getitem r "statistical-geography") in
           organisation_uri_set (Py.lower sg) uri ;;
           if Py.contains "local-authority-eng" org
           then
             let dl_url := "https://digital-land.github.io/organisation/" +:+ org +:+ "/" in
             let dl_url := Py.replace "-eng:" "-eng/" (Py.lower dl_url) in
             organisation_uri_set dl_url uri
           else ret ()
       | None => ret ()
       end) ;;
      load_organisation_rows rest organisation
  end.

(** [load_organisations()], given the rows of [var/cache/organisation.csv]
    and of [patch/organisation.csv] *)
Definition load_organisations (organisation_csv patch_csv : list row) : M unit :=
  let* organisation := load_organisation_rows organisation_csv ∅ in
  for_each patch_csv (λ r,
    let* v := lift (getitem r "value") in
    let value := lower_uri v in
    let* org := lift (getitem r "organisation") in
    if negb (Py.is_empty org)
    then
      let* orow := lift (getitem organisation org) in
      let* odc := lift (getitem orow "opendatacommunities") in
      organisation_uri_set value odc
    else ret ()).

Definition normalise_organisation_uri (fieldname fieldvalue : string) : M string :=
  let value := lower_uri fieldvalue in
  λ g,
    match organisation_uri g !! value with
    | Some uri => (Return uri, g)
    | None =>
        let s := end_of_uri value in
        match organisation_uri g !! s with
        | Some uri => (Return uri, g)
        | None => (log_issue fieldname "opendatacommunities-uri" fieldvalue ;; ret "") g
        end
    end.

(** the characters of [fieldvalue.strip(...)] in [normalise_date]: the
    space, the double quote and the comma *)
Definition date_strip_chars (c : ascii) : bool :=
  Ascii.eqb c " " || Ascii.eqb c Py.dquote || Ascii.eqb c ",".

(** the patterns of [normalise_date], in the order of the script *)
Definition date_patterns : list string :=
  [ "%Y-%m-%d";
    "%Y%m%d";
    "%Y-%m-%dT%H:%M:%S.000Z";
    "%Y-%m-%dT%H:%M:%SZ";
    "%Y-%m-%dT%H:%M:%S";
    "%Y-%m-%d %H:%M:%S";
    "%Y/%m/%d";
    "%Y %m %d";
    "%Y.%m.%d";
    "%Y-%d-%m";
    "%Y";
    "%Y.0";
    "%d/%m/%Y %H:%M:%S";
    "%d/%m/%Y %H:%M";
    "%d-%m-%Y";
    "%d-%m-%y";
    "%d-%m-%Y";
    "%d.%m.%Y";
    "%d.%m.%y";
    "%d/%m/%Y";
    "%d/%m/%y";
    "%d-%b-%Y";
    "%d-%b-%y";
    "%d %B %Y";
    "%b %d, %Y";
    "%b %d, %y";
    "%b-%y";
    "%m/%d/%Y" ].

(** the [for] loop over the patterns: the first one that parses returns;
    [None] when the loop runs out.  Only [ValueError] is caught, and
    [strptime] raises nothing else. *)
Fixpoint try_patterns (patterns : list string) (value : string) : option string :=
  match patterns with
  | [] => None
  | pattern :: rest =>
      match Strptime.strptime value pattern with
      | Return date => Some (Strptime.strftime date)
      | Raise _ => try_patterns rest value
      end
  end.

(** the name [field] the last two lines read is no parameter of the
    function ([context] is): it is the module-level name *)
Definition normalise_date (context fieldvalue : string) : M string :=
  let value := Py.strip date_strip_chars fieldvalue in
  match try_patterns date_patterns value with
  | Some s => ret s
  | None =>
      λ g, match field g with
           | Some f => (log_issue f "date" fieldvalue ;; ret "") g
           | None => (Raise (NameError "field"), g)
           end
  end.

Definition normalise_uri (fieldname value : string) : M string :=
  let uri := Py.join "" (Py.split value) in
  if validators_url uri then ret uri
  else log_issue fieldname "uri" value ;; ret "".

Definition normalise_address (fieldname value : string) : string :=
  let value := Py.join ", " (Py.fields (Ascii.eqb "010") value) in
  let value := Py.smap (λ c, if Ascii.eqb c ";" then "," else c)%char value in
  let value := Re.sub_run "," ", " 0 value in
  let value := Py.strip (Py.one_of ", ") value in
  let value := Re.sub_run "-" "-" 0 value in
  (* the second [replace] removes the curly quote, no character of a
     modelled string *)
  Py.sfilter (λ c, negb (Ascii.eqb c Py.dquote)) (Py.join " " (Py.split value)).

Definition normalise_enum_value (value : string) : string :=
  Py.join " " (Py.split (Re.sub_not_enum false (Py.lower value))).

(** [d.setdefault(k, {})] *)
Definition setdefault_empty (k : string) (d : gmap string (gmap string string))
  : gmap string (gmap string string) :=
  match d !! k with
  | Some _ => d
  | None => <[k := ∅]> d
  end.

(** [d[k1][k2] = v] *)
Definition setitem2 (k1 k2 v : string) (d : gmap string (gmap string string))
  : outcome (gmap string (gmap string string)) :=
  (let! inner := getitem d k1 in Return (<[k1 := <[k2 := v]> inner]> d))%outcome.

Definition field_enum_set (k1 k2 v : string) : M unit :=
  λ g, match setitem2 k1 k2 v (field_enum g) with
       | Return d => (Return (), set_field_enum d g)
       | Raise e => (Raise e, g)
       end.

Definition field_value_set (k1 k2 v : string) : M unit :=
  λ g, match setitem2 k1 k2 v (field_value g) with
       | Return d => (Return (), set_field_value d g)
       | Raise e => (Raise e, g)
       end.

Definition invalid_enum_message (fieldname enum : string) : string :=
  "invalid '" +:+ fieldname +:+ "' enum '" +:+ enum +:+ "' in patch/enum.csv".

(** the first loop of [load_field_value]: load enum values from schema *)
Definition load_schema_enums : M unit :=
  for_each (schema_fields schema) (λ f,
    let fieldname := name f in
    match constraints_enum f with
    | Some enums =>
        (λ g, (Return (), set_field_enum (setdefault_empty fieldname (field_enum g)) g)) ;;
        (λ g, (Return (), set_field_value (setdefault_empty fieldname (field_value g)) g)) ;;
        for_each enums (λ enum,
          let value := normalise_enum_value enum in
          field_enum_set fieldname enum enum ;;
          field_value_set fieldname value enum)
    | None => ret ()
    end).

(** the body of its second loop: load one fix-up from the patch file *)
Definition apply_enum_patch (r : row) : M unit :=
  let* fieldname := lift (getitem r "field") in
  let* enum := lift (getitem r "enum") in
  let* v := lift (getitem r "value") in
  let value := normalise_enum_value v in
  let* declared := (λ g, (getitem (field_enum g) fieldname, g)) in
  match declared !! enum with
  | None => raise (ValueError (invalid_enum_message fieldname enum))
  | Some _ =>
      (λ g, (Return (), set_field_value (setdefault_empty fieldname (field_value g)) g)) ;;
      field_value_set fieldname value enum
  end.

(** [load_field_value()], given the rows of [patch/enum.csv] *)
Definition load_field_value (patch_csv : list row) : M unit :=
  load_schema_enums ;;
  for_each patch_csv apply_enum_patch.

Definition normalise_enum (fieldname fieldvalue : string) : M string :=
  let value := normalise_enum_value fieldvalue in
  λ g, match field_value g !! fieldname ≫= (λ index, index !! value) with
       | Some token => (Return token, g)
       | None => (log_issue fieldname "enum" fieldvalue ;; ret "") g
       end.

(** the loop over [extra.get("strip", [])] *)
Fixpoint apply_strip (patterns : list string) (value : string) : outcome string :=
  match patterns with
  | [] => Return value
  | strip :: rest => (let! value := re_sub strip "" value in apply_strip rest value)%outcome
  end.

Definition normalise (fieldname value : string) : M string :=
  if Py.is_empty value then ret ""
  else
    let* f := lift (getitem fields fieldname) in
    let extra := digital_land f in
    let* value := lift (apply_strip (ext_strip extra) value) in
    if String.eqb fieldname "OrganisationURI"
    then normalise_organisation_uri fieldname value
    else if String.eqb (type f) "integer"
    then normalise_integer fieldname value
    else if String.eqb (type f) "number"
    then normalise_decimal fieldname value (from_option id 6%Z (ext_precision extra))
    else if String.eqb (type f) "date"
    then normalise_date fieldname value
    else if String.eqb (format f) "uri"
    then normalise_uri fieldname value
    else if String.eqb (ext_format extra) "address"
    then ret (normalise_address fieldname value)
    else if bool_decide (is_Some (constraints_enum f))
    then normalise_enum fieldname value
    else ret value.

(** the first loop of [default]; a dict is walked entry by entry, and the
    order does not matter because every entry has its own key *)
Fixpoint fill_defaults (entries : list (string * string)) (o : row) : outcome row :=
  match entries with
  | [] => Return o
  | (f, v) :: rest =>
      (let! current := getitem o f in
       fill_defaults rest (if Py.is_empty current then <[f := v]> o else o))%outcome
  end.

Definition default (o : row) : M row :=
  let* o := (λ g, (fill_defaults (map_to_list (default_values g)) o, g)) in
  for_each (duplicate schema) (λ f,
    let* v := lift (getitem o f) in
    λ g, (Return (), set_default_values (<[f := v]> (default_values g)) g)) ;;
  ret o.

(** [o = {}] and the loop over [fieldnames] of the main block; the loop
    variable is the module-level name [field] *)
Fixpoint normalise_fields (names : list string) (input o : row) : M row :=
  match names with
  | [] => ret o
  | f :: rest =>
      (λ g, (Return (), set_field (Some f) g)) ;;
      let* raw := lift (getitem input f) in
      let* v := normalise f raw in
      normalise_fields rest input (<[f := v]> o)
  end.

(** the body of the loop over the reader, up to [writer.writerow(o)] *)
Definition process_row (input : row) : M row :=
  (λ g, (Return (), set_row_number (row_number g + 1) g)) ;;
  let* o := normalise_fields fieldnames input ∅ in
  let* o := normalise_geometry o in
  default o.

(** what a run leaves behind: the rows written to the output file ([None]
    when the file was never opened), the exception that ended the run if
    one did, and the module state, whose [log] is the log file *)
Record run := {
  written : option (list row);
  error : option exn;
  final : globals;
}.

Fixpoint process_rows (rows : list row) (out : list row) (g : globals) : run :=
  match rows with
  | [] => {| written := Some out; error := None; final := g |}
  | r :: rest =>
      match process_row r g with
      | (Return o, g') => process_rows rest (out ++ [o]) g'
      | (Raise e, g') => {| written := Some out; error := Some e; final := g' |}
      end
  end.

(** the main block, given the rows of the input file and of the three
    reference files *)
Definition main (input_csv organisation_csv patch_organisation_csv patch_enum_csv : list row)
  : run :=
  match (load_organisations organisation_csv patch_organisation_csv ;;
         load_field_value patch_enum_csv) initial_globals with
  | (Raise e, g) => {| written := None; error := Some e; final := g |}
  | (Return _, g) => process_rows input_csv [] g
  end.

End Harmonise.

(** ** The dispatch of [normalise], as a priority table *)

Inductive normaliser :=
| OrganisationUri
| Integer
| Decimal
| Date
| Uri
| Address
| Enum
| Verbatim.

(** the rules in priority order: the first whose test holds of the field
    name and its schema entry names the normaliser *)
Definition priority : list ((string → field_spec → bool) * normaliser) :=
  [ (λ n _, String.eqb n "OrganisationURI", OrganisationUri);
    (λ _ f, String.eqb (type f) "integer", Integer);
    (λ _ f, String.eqb (type f) "number", Decimal);
    (λ _ f, String.eqb (type f) "date", Date);
    (λ _ f, String.eqb (format f) "uri", Uri);
    (λ _ f, String.eqb (ext_format (digital_land f)) "address", Address);
    (λ _ f, bool_decide (is_Some (constraints_enum f)), Enum) ].

Fixpoint first_rule (rules : list ((string → field_spec → bool) * normaliser))
    (n : string) (f : field_spec) : normaliser :=
  match rules with
  | [] => Verbatim
  | (test, k) :: rest => if test n f then k else first_rule rest n f
  end.

Definition select (n : string) (f : field_spec) : normaliser := first_rule priority n f.

Definition run_normaliser (validators_url : string → bool) (k : normaliser)
    (fieldname : string) (f : field_spec) (value : string) : M string :=
  match k with
  | OrganisationUri => normalise_organisation_uri fieldname value
  | Integer => normalise_integer fieldname value
  | Decimal =>
      normalise_decimal fieldname value
        (from_option id 6%Z (ext_precision (digital_land f)))
  | Date => normalise_date fieldname value
  | Uri => normalise_uri validators_url fieldname value
  | Address => ret (normalise_address fieldname value)
  | Enum => normalise_enum fieldname value
  | Verbatim => ret value
  end.

(** ** The enum key as the specification words it: lower-case, remove
    every character outside the class, collapse white space *)

Definition spec_enum_key (value : string) : string :=
  Py.join " " (Py.split (Py.sfilter Re.enum_char (Py.lower value))).

(** ** Sample schemas and stand-ins for the library calls *)

Module Sample.

Definition no_extension : extension :=
  {| ext_strip := []; ext_precision := None; ext_format := "" |}.

Definition plain (n t : string) : field_spec :=
  {| name := n; type := t; format := ""; constraints_enum := None;
     digital_land := no_extension |}.

(** a transformer that projects every point to infinity, as pyproj does
    with a point outside the projection's domain *)
Definition transform_nowhere (x y : Dec.t) : pyfloat * pyfloat :=
  (FInf false, FInf false).

Definition url_any (uri : string) : bool := true.

(** [re.sub] for schemas without strip patterns: never called *)
Definition re_sub_unused (pattern repl s : string) : outcome string := Return s.

(** a number field that asks for two fractional digits *)
Definition schema_precision2 : schema_t :=
  {| schema_fields :=
       [ {| name := "Hectares"; type := "number"; format := "";
            constraints_enum := None;
            digital_land := {| ext_strip := []; ext_precision := Some 2%Z;
                               ext_format := "" |} |} ];
     duplicate := [] |}.

Definition schema_geo : schema_t :=
  {| schema_fields := [plain "GeoX" "number"; plain "GeoY" "number"];
     duplicate := [] |}.

(** one carried-forward field *)
Definition schema_carry : schema_t :=
  {| schema_fields := [plain "SiteReference" "string"];
     duplicate := ["SiteReference"] |}.

Definition carry_row (v : string) : row := {["SiteReference" := v]}.

(** one row of the organisation file *)
Definition organisation_row : row :=
  <["organisation" := "local-authority-eng:LBH"]>
    (<["opendatacommunities" :=
         "http://opendatacommunities.org/id/london-borough-council/Lambeth"]>
       {["statistical-geography" := "E09000022"]}).

(** a field with an enum, and one without *)
Definition schema_enum : schema_t :=
  {| schema_fields :=
       [ {| name := "OwnershipStatus"; type := "string"; format := "";
            constraints_enum := Some ["owned by a public authority"; "mixed ownership"];
            digital_land := no_extension |};
         plain "Notes" "string" ];
     duplicate := [] |}.

Definition patch_row (f e v : string) : row :=
  <["field" := f]> (<["enum" := e]> (<["value" := v]> ∅)).

Definition schema_uri_enum : schema_t :=
  {| schema_fields :=
       [ {| name := "PlanningHistory"; type := "string"; format := "uri";
            constraints_enum := Some ["yes"; "no"]; digital_land := no_extension |} ];
     duplicate := [] |}.

(** a field that is both a URI and an enum *)
Definition uri_and_enum : field_spec :=
  {| name := "PlanningHistory"; type := "string"; format := "uri";
     constraints_enum := Some ["yes"; "no"]; digital_land := no_extension |}.

End Sample.

(** ** Vocabulary of the properties *)

(** the module state after [log_issue(fieldname, datatype, value)] *)
Definition logged (g : globals) (fieldname datatype value : string) : globals :=
  set_log (log g ++ [{| issue_row_number := row_number g; issue_field := fieldname;
                        issue_datatype := datatype; issue_value := value |}]) g.

(** the geometry resolver returns, logs nothing and leaves both coordinate
    fields of the record blank *)
Definition both_blank_no_log (transform : Dec.t → Dec.t → pyfloat * pyfloat)
    (r : row) (g : globals) : Prop :=
  ∃ r', normalise_geometry transform r g = (Return r', g) ∧
        get_or_empty r' "GeoX" = "" ∧ get_or_empty r' "GeoY" = "".

(** a character outside the enum class, turned into a space *)
Definition space_outside (c : ascii) : ascii :=
  if Re.enum_char c then c else " "%char.

(** a computation that writes no log row and leaves the row counter alone *)
Definition keeps_log {A} (m : M A) : Prop :=
  ∀ g r g', m g = (r, g') → log g' = log g ∧ row_number g' = row_number g.

(** what a normaliser may do to the module state [g] on its way to the
    result [r]: nothing, or log one issue beside an empty result *)
Definition unchanged_or_logged (g : globals) (r : outcome string) (g' : globals) : Prop :=
  g' = g ∨ (r = Return "" ∧ ∃ f dt v, g' = logged g f dt v).

(** a computation that leaves the row counter alone and whose only effect
    on the log is to append issues that carry the current row number *)
Definition appends_log {A} (m : M A) : Prop :=
  ∀ g r g', m g = (r, g') →
    row_number g' = row_number g ∧
    ∃ new, log g' = log g ++ new ∧
           Forall (λ i, issue_row_number i = row_number g) new.

(** [token] is one of the values the schema declares for the field named
    [fieldname] in its [constraints.enum] *)
Definition declared (schema : schema_t) (fieldname token : string) : Prop :=
  ∃ f enums, f ∈ schema_fields schema ∧ name f = fieldname ∧
             constraints_enum f = Some enums ∧ token ∈ enums.

(** every entry [idx[fieldname][key] = token] of a two-level index
    satisfies [P fieldname key token] *)
Definition index_all (P : string → string → string → Prop)
    (idx : gmap string (gmap string string)) : Prop :=
  ∀ fieldname (inner : gmap string string) key token,
    idx !! fieldname = Some inner → inner !! key = Some token → P fieldname key token.

(** the two enum indexes hold declared tokens only, [field_enum] under the
    token itself *)
Definition enum_indexes_sound (schema : schema_t) (g : globals) : Prop :=
  index_all (λ f k t, k = t ∧ declared schema f t) (field_enum g) ∧
  index_all (λ f _ t, declared schema f t) (field_value g).

(** a computation that keeps an invariant of the module state *)
Definition preserves {A} (I : globals → Prop) (m : M A) : Prop :=
  ∀ g r g', I g → m g = (r, g') → I g'.

(** [uri] is the [opendatacommunities] value of a row of the organisation
    file, as written there or lower-cased *)
Definition registry_uri (organisation_csv : list row) (uri : string) : Prop :=
  ∃ (r : row) odc, r ∈ organisation_csv ∧ r !! "opendatacommunities" = Some odc ∧
                   (uri = Py.lower odc ∨ uri = odc).

(** every value of the organisation index comes from the organisation
    file *)
Definition organisation_index_sound (organisation_csv : list row) (g : globals) : Prop :=
  ∀ k uri, organisation_uri g !! k = Some uri → registry_uri organisation_csv uri.

(** * Properties *)

(** ** The library models on sample inputs *)

Example split_sample : Py.split " a  b c " = ["a"; "b"; "c"].
Proof. reflexivity. Qed.

Example int_sample :
  Py.int " +4_2 " = Return 42%Z ∧ Py.int "-0" = Return 0%Z ∧
  Py.int "0042" = Return 42%Z.
Proof. repeat split; reflexivity. Qed.

Example int_refused :
  ∃ e1 e2 e3 e4,
    Py.int "4__2" = Raise e1 ∧ Py.int "_42" = Raise e2 ∧
    Py.int "42." = Raise e3 ∧ Py.int "+ 1" = Raise e4.
Proof. do 4 eexists. repeat split; reflexivity. Qed.

Example replace_sample :
  Py.replace "-eng:" "-eng/" "a-eng:b-eng:c" = "a-eng/b-eng/c".
Proof. reflexivity. Qed.

Example sub_upto_slash_sample :
  Re.sub_upto_slash "http://a/b/c" = "c" ∧ Re.sub_upto_slash "abc" = "abc".
Proof. split; reflexivity. Qed.

Example sub_run_sample : Re.sub_run "," ", " 0 "a ,, b  c,d" = "a, b  c, d".
Proof. reflexivity. Qed.

Example format_decimal_samples :
  (let! d := Dec.of_string "51.500000" in format_decimal (NDec d) 6)%outcome
    = Return "51.5" ∧
  (let! d := Dec.of_string "51.123456789" in format_decimal (NDec d) 6)%outcome
    = Return "51.123457" ∧
  (let! d := Dec.of_string "0.0000025" in format_decimal (NDec d) 6)%outcome
    = Return "0.000002" ∧
  (let! d := Dec.of_string "100" in format_decimal (NDec d) 6)%outcome
    = Return "1E+2" ∧
  (let! d := Dec.of_string "1e22" in format_decimal (NDec d) 6)%outcome
    = Raise InvalidOperation.
Proof. repeat split; vm_compute; reflexivity. Qed.

Example strptime_samples :
  Strptime.strptime "2020112" "%Y%m%d"
    = Return {| Strptime.year := 2020; Strptime.month := 11; Strptime.day := 2 |} ∧
  Strptime.strptime "Jan  5, 2020" "%b %d, %Y"
    = Return {| Strptime.year := 2020; Strptime.month := 1; Strptime.day := 5 |} ∧
  (∃ e, Strptime.strptime "29/02/2019" "%d/%m/%Y" = Raise e) ∧
  (∃ e, Strptime.strptime "2020-01-01T10:00:60Z" "%Y-%m-%dT%H:%M:%SZ" = Raise e).
Proof. repeat split; try (eexists; vm_compute; reflexivity); vm_compute; reflexivity. Qed.

(** ** Computations over the module state *)

Lemma bind_return {A B} (m : M A) (k : A → M B) g a g' :
  m g = (Return a, g') → bind m k g = k a g'.
Proof. intros H. unfold bind. now rewrite H. Qed.

Lemma bind_raise {A B} (m : M A) (k : A → M B) g e g' :
  m g = (Raise e, g') → bind m k g = (Raise e, g').
Proof. intros H. unfold bind. now rewrite H. Qed.

Lemma for_each_app {A} (l1 l2 : list A) (body : A → M unit) g g1 :
  for_each l1 body g = (Return (), g1) →
  for_each (l1 ++ l2) body g = for_each l2 body g1.
Proof.
  revert g. induction l1 as [|x l1 IH]; intros g H; simpl in *.
  - unfold ret in H. now inversion H.
  - unfold bind in *. destruct (body x g) as [[[]|e] g2]; [|discriminate].
    now apply IH.
Qed.

Lemma is_empty_true s : Py.is_empty s = true ↔ s = "".
Proof. destruct s; simpl; split; congruence. Qed.

Lemma is_empty_false s : Py.is_empty s = false ↔ s ≠ "".
Proof. destruct s; simpl; split; congruence. Qed.

(** ** Totality of [normalise] (C1) *)

Section Totality.

Variable schema : schema_t.
Variable validators_url : string → bool.
Variable re_sub : string → string → string → outcome string.

(** An empty value comes back empty, and nothing is logged. *)
Lemma normalise_empty fieldname g :
  normalise schema validators_url re_sub fieldname "" g = (Return "", g).
Proof. reflexivity. Qed.

(** The normalisers other than the decimal one return: each logs and
    answers the empty string where it fails. *)
Lemma normalise_integer_returns fieldname value g :
  ∃ s g', normalise_integer fieldname value g = (Return s, g').
Proof.
  unfold normalise_integer. destruct (Py.int _); eauto.
Qed.

Lemma normalise_organisation_uri_returns fieldname value g :
  ∃ s g', normalise_organisation_uri fieldname value g = (Return s, g').
Proof.
  unfold normalise_organisation_uri.
  destruct (organisation_uri g !! _); eauto.
  destruct (organisation_uri g !! _); eauto.
Qed.

Lemma normalise_uri_returns fieldname value g :
  ∃ s g', normalise_uri validators_url fieldname value g = (Return s, g').
Proof.
  unfold normalise_uri. destruct (validators_url _); eauto.
Qed.

Lemma normalise_enum_returns fieldname value g :
  ∃ s g', normalise_enum fieldname value g = (Return s, g').
Proof.
  unfold normalise_enum. destruct (_ ≫= _); eauto.
Qed.

(** The date normaliser returns as long as the name [field] is bound, as
    it is inside the loop of the main block. *)
Lemma normalise_date_returns context value g :
  is_Some (field g) →
  ∃ s g', normalise_date context value g = (Return s, g').
Proof.
  intros [f Hf]. unfold normalise_date.
  destruct (try_patterns _ _); [eauto|]. rewrite Hf. eauto.
Qed.

(** Called where [field] is unbound, it raises on a value no pattern
    parses. *)
Lemma normalise_date_unbound context value g :
  field g = None →
  try_patterns date_patterns (Py.strip date_strip_chars value) = None →
  normalise_date context value g = (Raise (NameError "field"), g).
Proof.
  intros Hf Hp. unfold normalise_date. now rewrite Hp, Hf.
Qed.

(** Away from number fields, with strip patterns that compile and [field]
    bound, [normalise] returns a string. *)
Lemma normalise_returns fieldname f value g :
  fields schema !! fieldname = Some f →
  type f ≠ "number" →
  is_Some (field g) →
  (∀ v, ∃ v', apply_strip re_sub (ext_strip (digital_land f)) v = Return v') →
  ∃ s g', normalise schema validators_url re_sub fieldname value g = (Return s, g').
Proof.
  intros Hf Hty Hfield Hstrip. unfold normalise.
  destruct (Py.is_empty value); [unfold ret; eauto|].
  unfold bind at 1, lift, getitem. rewrite Hf.
  destruct (Hstrip value) as [v' Hv']. unfold bind at 1. rewrite Hv'.
  destruct (String.eqb fieldname _); [apply normalise_organisation_uri_returns|].
  destruct (String.eqb (type f) "integer"); [apply normalise_integer_returns|].
  destruct (String.eqb_spec (type f) "number"); [contradiction|].
  destruct (String.eqb (type f) "date"); [now apply normalise_date_returns|].
  destruct (String.eqb (format f) "uri"); [apply normalise_uri_returns|].
  destruct (String.eqb _ "address"); [unfold ret; eauto|].
  destruct (bool_decide _); [apply normalise_enum_returns|unfold ret; eauto].
Qed.

(** C1. The claim is that [normalise] returns a string for every schema
    field and every input string and never raises, a failing normaliser
    logging and answering the empty string.  The script does not do that
    for a number field: [normalise_decimal] guards the parse of the value
    only, and the rounding in [format_decimal] that follows raises
    [InvalidOperation] on a value that parses to an infinity.  Nothing is
    logged and no string comes back. *)
Theorem normalise_number_infinity_raises fieldname f g :
  fields schema !! fieldname = Some f →
  ext_strip (digital_land f) = [] →
  fieldname ≠ "OrganisationURI" →
  type f = "number" →
  normalise schema validators_url re_sub fieldname "Infinity" g
    = (Raise InvalidOperation, g).
Proof.
  intros Hf Hstrip Hname Hty. unfold normalise. simpl Py.is_empty.
  cbv iota. unfold bind at 1, lift, getitem. rewrite Hf.
  rewrite Hstrip. unfold bind at 1. simpl apply_strip. cbv iota beta.
  destruct (String.eqb_spec fieldname "OrganisationURI"); [contradiction|].
  rewrite Hty. reflexivity.
Qed.

End Totality.

Lemma normalise_number_infinity_raises_witness :
  normalise Sample.schema_geo Sample.url_any Sample.re_sub_unused "GeoX" "Infinity"
    initial_globals = (Raise InvalidOperation, initial_globals).
Proof.
  apply (normalise_number_infinity_raises Sample.schema_geo Sample.url_any
           Sample.re_sub_unused "GeoX" (Sample.plain "GeoX" "number")).
  - reflexivity.
  - reflexivity.
  - discriminate.
  - reflexivity.
Defined.

(** The same happens on a finite value with more than 22 digits before the
    point: rounding it to six places needs more than the 28 digits of the
    context. *)
Example normalise_number_large_raises :
  normalise Sample.schema_geo Sample.url_any Sample.re_sub_unused "GeoX" "1e22"
    initial_globals = (Raise InvalidOperation, initial_globals).
Proof. vm_compute. reflexivity. Qed.

(** ** The decimal normaliser (C2) *)

(** C2. The claim is that a number field's value is rounded half to even to
    the precision the schema configures for the field (six digits when it
    configures none).  The script reads the configured precision and hands
    it to [normalise_decimal], which does not pass it on: whatever the
    precision, the result is the one for six digits.  A field configured
    for two digits keeps "1.2345", which rounded to two digits is "1.23". *)
Theorem normalise_decimal_ignores_precision :
  (∀ fieldname value p q g,
     normalise_decimal fieldname value p g = normalise_decimal fieldname value q g) ∧
  normalise Sample.schema_precision2 Sample.url_any Sample.re_sub_unused
    "Hectares" "1.2345" initial_globals = (Return "1.2345", initial_globals) ∧
  (let! d := Dec.of_string "1.2345" in format_decimal (NDec d) 2)%outcome
    = Return "1.23".
Proof.
  split; [reflexivity|]. split; vm_compute; reflexivity.
Qed.

(** The two sample values of the specification, at the default precision. *)
Example normalise_decimal_samples :
  ∀ fieldname p g,
    normalise_decimal fieldname "51.500000" p g = (Return "51.5", g) ∧
    normalise_decimal fieldname "51.123456789" p g = (Return "51.123457", g).
Proof. intros. split; reflexivity. Qed.

(** ** The integer normaliser (C6) *)

Lemma zeros_then_end_zeros k :
  Re.zeros_then_end false (Dec.zeros (S k)) = Some "".
Proof.
  simpl. induction k as [|k IH]; [reflexivity|]. exact IH.
Qed.

(** No match of [0+$] starts in front of a later dot. *)
Lemma zeros_then_end_before_dot b s t :
  Re.zeros_then_end b (s +:+ String "." t) = None.
Proof.
  revert b. induction s as [|c s IH]; intros b.
  - simpl. destruct b; reflexivity.
  - change (String c s +:+ String "." t) with (String c (s +:+ String "." t)).
    simpl. destruct (Ascii.eqb c "0"); [apply IH|].
    destruct b; simpl; [|reflexivity].
    destruct (Ascii.eqb c "010"); simpl; [|reflexivity].
    destruct s; reflexivity.
Qed.

Lemma sub_dot_zeros_suffix s k :
  Re.sub_dot_zeros (s +:+ String "." (Dec.zeros (S k))) = s.
Proof.
  induction s as [|c s IH].
  - change ("" +:+ String "." (Dec.zeros (S k))) with (String "." (Dec.zeros (S k))).
    unfold Re.sub_dot_zeros. change (Ascii.eqb "." ".") with true. cbv iota.
    now rewrite zeros_then_end_zeros.
  - change (String c s +:+ String "." (Dec.zeros (S k)))
      with (String c (s +:+ String "." (Dec.zeros (S k)))).
    remember (Dec.zeros (S k)) as z eqn:Hz.
    cbn [Re.sub_dot_zeros]. rewrite zeros_then_end_before_dot.
    destruct (Ascii.eqb c "."); now rewrite IH.
Qed.

(** C6, the claim as stated, fails on its own example: the strip step does
    not leave "42.0.0" untouched, it removes the final ".0". *)
Lemma integer_strip_touches_42_0_0 :
  Re.sub_dot_zeros "42.0.0" = "42.0" ∧ Re.sub_dot_zeros "42.0.0" ≠ "42.0.0".
Proof. split; [reflexivity|discriminate]. Qed.

(** C6, amended.  The strip step removes the one run of a dot and zeros
    that ends the text, whatever stands in front of it, and is applied
    once.  So "42.00" becomes "42" and normalises to "42"; "42.0.0" becomes
    "42.0", which is no integer: an "integer" issue is logged with the
    stripped value "42.0" and the result is the empty string. *)
Theorem integer_strip_removes_final_run :
  (∀ s k, Re.sub_dot_zeros (s +:+ String "." (Dec.zeros (S k))) = s) ∧
  (∀ fieldname g, normalise_integer fieldname "42.00" g = (Return "42", g)) ∧
  (∀ fieldname g,
     normalise_integer fieldname "42.0.0" g
       = (Return "", logged g fieldname "integer" "42.0")).
Proof.
  split; [apply sub_dot_zeros_suffix|]. split; intros; reflexivity.
Qed.

(** ** The blank-coordinate guard of the geometry resolver (C4) *)

(** C4, the claim as stated, fails: with GeoX blank and GeoY "51.5" the
    resolver logs nothing, as claimed, and GeoY is not blank afterwards. *)
Lemma blank_geox_keeps_geoy :
  let r : row := <["GeoX" := ""]> {["GeoY" := "51.5"]} in
  get_or_empty r "GeoX" = "" ∧
  ¬ both_blank_no_log Sample.transform_nowhere r initial_globals.
Proof.
  split; [reflexivity|]. intros (r' & Hrun & _ & Hy).
  vm_compute in Hrun. injection Hrun as <-. vm_compute in Hy. discriminate.
Qed.

(** C4, amended.  When GeoX or GeoY is blank or missing the resolver
    returns the record as it is and logs nothing: a blank coordinate stays
    blank and the other one keeps its value. *)
Theorem normalise_geometry_blank_unchanged transform (r : row) g :
  get_or_empty r "GeoX" = "" ∨ get_or_empty r "GeoY" = "" →
  normalise_geometry transform r g = (Return r, g).
Proof.
  intros H. unfold normalise_geometry.
  destruct H as [-> | ->]; simpl; [reflexivity|].
  now rewrite orb_true_r.
Qed.

Lemma normalise_geometry_blank_unchanged_witness :
  normalise_geometry Sample.transform_nowhere
    (<["GeoX" := ""]> {["GeoY" := "51.5"]}) initial_globals
  = (Return (<["GeoX" := ""]> {["GeoY" := "51.5"]}), initial_globals).
Proof.
  apply (normalise_geometry_blank_unchanged Sample.transform_nowhere
           (<["GeoX" := ""]> {["GeoY" := "51.5"]}) initial_globals).
  left. reflexivity.
Defined.

(** ** The dispatch of [normalise] (C10) *)

(** C10. For a non-empty raw value, [normalise] applies the field's strip
    patterns and then runs the one normaliser the priority table selects:
    the organisation resolver for the field named OrganisationURI, else by
    type integer, number, date, else by format uri, else by the extension
    format address, else the enum resolver when the field has an enum
    constraint, else the value verbatim.  A field with format uri is never
    handed to the enum resolver, and is validated as a URI unless its name
    or type selects an earlier rule. *)
Theorem normalise_dispatch schema validators_url re_sub fieldname f raw value g :
  raw ≠ "" →
  fields schema !! fieldname = Some f →
  apply_strip re_sub (ext_strip (digital_land f)) raw = Return value →
  normalise schema validators_url re_sub fieldname raw g
    = run_normaliser validators_url (select fieldname f) fieldname f value g ∧
  (format f = "uri" →
     select fieldname f ≠ Enum ∧
     (fieldname ≠ "OrganisationURI" → type f ≠ "integer" → type f ≠ "number" →
      type f ≠ "date" → select fieldname f = Uri)).
Proof.
  intros Hraw Hf Hstrip. apply is_empty_false in Hraw.
  unfold normalise. rewrite Hraw. unfold bind at 1, lift, getitem. rewrite Hf.
  unfold bind at 1. rewrite Hstrip.
  unfold select, priority, first_rule.
  split.
  - destruct (String.eqb fieldname _); [reflexivity|].
    destruct (String.eqb (type f) "integer"); [reflexivity|].
    destruct (String.eqb (type f) "number"); [reflexivity|].
    destruct (String.eqb (type f) "date"); [reflexivity|].
    destruct (String.eqb (format f) "uri"); [reflexivity|].
    destruct (String.eqb _ "address"); [reflexivity|].
    destruct (bool_decide _); reflexivity.
  - intros Huri. rewrite Huri. change (String.eqb "uri" "uri") with true. split.
    + destruct (String.eqb fieldname _); [discriminate|].
      destruct (String.eqb (type f) "integer"); [discriminate|].
      destruct (String.eqb (type f) "number"); [discriminate|].
      destruct (String.eqb (type f) "date"); discriminate.
    + intros Hn Hi Hnum Hd.
      apply String.eqb_neq in Hn, Hi, Hnum, Hd. now rewrite Hn, Hi, Hnum, Hd.
Qed.

Lemma normalise_dispatch_witness :
  normalise Sample.schema_uri_enum Sample.url_any Sample.re_sub_unused
    "PlanningHistory" "yes" initial_globals
    = run_normaliser Sample.url_any (select "PlanningHistory" Sample.uri_and_enum)
        "PlanningHistory" Sample.uri_and_enum "yes" initial_globals ∧
  (format Sample.uri_and_enum = "uri" →
     select "PlanningHistory" Sample.uri_and_enum ≠ Enum ∧
     ("PlanningHistory" ≠ "OrganisationURI" → type Sample.uri_and_enum ≠ "integer" →
      type Sample.uri_and_enum ≠ "number" → type Sample.uri_and_enum ≠ "date" →
      select "PlanningHistory" Sample.uri_and_enum = Uri)).
Proof.
  apply (normalise_dispatch Sample.schema_uri_enum Sample.url_any Sample.re_sub_unused
           "PlanningHistory" Sample.uri_and_enum "yes" "yes" initial_globals).
  - discriminate.
  - reflexivity.
  - reflexivity.
Defined.

(** A field that is both a URI and an enum: the value "yes", a token of its
    enum, is validated as a URI; under a validator that refuses it the
    result is a logged "uri" issue, not the token. *)
Example uri_and_enum_is_a_uri :
  normalise Sample.schema_uri_enum (λ _, false) Sample.re_sub_unused
    "PlanningHistory" "yes" initial_globals
  = (Return "", logged initial_globals "PlanningHistory" "uri" "yes").
Proof. vm_compute. reflexivity. Qed.

(** ** The unresolved branch of the geometry resolver (C3) *)

Lemma join_comma_not_bare gx gy : gx ≠ "" → Py.join "," [gx; gy] ≠ ",".
Proof.
  intros Hx. destruct gx as [|c gx]; [congruence|].
  change (Py.join "," [String c gx; gy]) with (String c (gx +:+ String "," gy)).
  intros H. injection H as _ H. destruct gx; discriminate.
Qed.

(** C3. The claim is that a pair no interpretation places in England is
    logged once, under "GeoX,GeoY" and "OSGB", with the original pair as
    the logged value, and that both outputs are blanked.  The script logs
    once under that key and datatype and blanks both outputs, and the value
    it logs is the bare separator ",": it builds the value from the two
    fields of the row after it has blanked them. *)
Theorem normalise_geometry_unresolved_logs_separator
    transform (r : row) g gx gy geox geoy lat1 lon1 lat2 lon2 :
  r !! "GeoX" = Some gx → r !! "GeoY" = Some gy → gx ≠ "" → gy ≠ "" →
  Dec.of_string gx = Return geox → Dec.of_string gy = Return geoy →
  within_england (NDec geox) (NDec geoy) = Return false →
  within_england (NDec geoy) (NDec geox) = Return false →
  transform geox geoy = (lat1, lon1) →
  within_england (NFloat lon1) (NFloat lat1) = Return false →
  transform geoy geox = (lat2, lon2) →
  within_england (NFloat lon2) (NFloat lat2) = Return false →
  normalise_geometry transform r g
    = (Return (<["GeoY" := ""]> (<["GeoX" := ""]> r)),
       logged g "GeoX,GeoY" "OSGB" ",") ∧
  Py.join "," [gx; gy] ≠ ",".
Proof.
  intros Hx Hy Hgx Hgy Hpx Hpy Hd Hs Ht1 Hw1 Ht2 Hw2.
  split; [|now apply join_comma_not_bare].
  unfold normalise_geometry, get_or_empty. rewrite Hx, Hy. cbn [from_option id].
  apply is_empty_false in Hgx, Hgy. rewrite Hgx, Hgy. simpl orb. cbv iota.
  unfold bind, lift, getitem. rewrite Hx, Hpx, Hy, Hpy, Hd, Hs, Ht1, Hw1.
  simpl negb. cbv iota. rewrite Ht2, Hw2. simpl negb. cbv iota.
  rewrite lookup_insert_ne by discriminate. rewrite !lookup_insert_eq.
  reflexivity.
Qed.

Lemma normalise_geometry_unresolved_logs_separator_witness :
  normalise_geometry Sample.transform_nowhere
    (<["GeoX" := "1"]> {["GeoY" := "2"]}) initial_globals
    = (Return (<["GeoY" := ""]> (<["GeoX" := ""]> (<["GeoX" := "1"]> {["GeoY" := "2"]}))),
       logged initial_globals "GeoX,GeoY" "OSGB" ",") ∧
  Py.join "," ["1"; "2"] ≠ ",".
Proof.
  apply (normalise_geometry_unresolved_logs_separator Sample.transform_nowhere
           (<["GeoX" := "1"]> {["GeoY" := "2"]}) initial_globals "1" "2"
           (Dec.Fin false 1 0) (Dec.Fin false 2 0)
           (FInf false) (FInf false) (FInf false) (FInf false));
    solve [reflexivity | discriminate].
Defined.

(** ** The enum key and the enum resolver (C5) *)

Lemma filter_skip_empty (l : list string) :
  filter (λ w, w ≠ EmptyString) (EmptyString :: l) = filter (λ w, w ≠ EmptyString) l.
Proof. now rewrite filter_cons_False by (intros H; now apply H). Qed.

Lemma filter_keep_cons c w (l : list string) :
  filter (λ w, w ≠ EmptyString) (String c w :: l)
  = String c w :: filter (λ w, w ≠ EmptyString) l.
Proof. now rewrite filter_cons_True by discriminate. Qed.

(** Replacing runs and replacing single characters give the same pieces
    once empty pieces are dropped.  Out of a run the first pieces agree as
    well; inside a run the text with single replacements starts with the
    spaces the run replacement has already accounted for. *)
Lemma sub_not_enum_fields s :
  (∃ w ws1 ws2,
     Py.fields Py.isspace (Re.sub_not_enum false s) = w :: ws1 ∧
     Py.fields Py.isspace (Py.smap space_outside s) = w :: ws2 ∧
     filter (λ w, w ≠ EmptyString) ws1 = filter (λ w, w ≠ EmptyString) ws2) ∧
  filter (λ w, w ≠ EmptyString) (Py.fields Py.isspace (Re.sub_not_enum true s))
  = filter (λ w, w ≠ EmptyString) (Py.fields Py.isspace (Py.smap space_outside s)).
Proof.
  induction s as [|c s [(w & ws1 & ws2 & H1 & H2 & Hf) Hrun]].
  - split; [exists "", [], []; repeat split|reflexivity].
  - cbn [Re.sub_not_enum Py.smap]. unfold space_outside at 1 3.
    destruct (Re.enum_char c) eqn:Hc.
    + cbn [Py.fields]. rewrite H1, H2.
      destruct (Py.isspace c).
      * split; [exists "", (w :: ws1), (w :: ws2); repeat split|].
        -- destruct w; [now rewrite !filter_skip_empty|].
           now rewrite !filter_keep_cons, Hf.
        -- rewrite !filter_skip_empty.
           destruct w; [now rewrite !filter_skip_empty|].
           now rewrite !filter_keep_cons, Hf.
      * split; [exists (String c w), ws1, ws2; repeat split; assumption|].
        now rewrite !filter_keep_cons, Hf.
    + cbn [Py.fields]. change (Py.isspace " ") with true. cbv iota.
      split; [exists "", (Py.fields Py.isspace (Re.sub_not_enum true s)),
                (Py.fields Py.isspace (Py.smap space_outside s)); repeat split;
              assumption|].
      now rewrite filter_skip_empty.
Qed.

(** C5, the claim as stated, fails on its own example: the slash of
    "Retail/Leisure" is replaced by a space, not removed, so the key is
    "retail leisure" and not "retailleisure", the key the claimed rule
    gives. *)
Lemma enum_key_of_retail_leisure :
  normalise_enum_value "Retail/Leisure" = "retail leisure" ∧
  spec_enum_key "Retail/Leisure" = "retailleisure" ∧
  normalise_enum_value "Retail/Leisure" ≠ spec_enum_key "Retail/Leisure".
Proof. repeat split; try reflexivity. vm_compute. discriminate. Qed.

(** C5, amended.  The key is the raw string lower-cased, every character
    outside the class turned into a space, and white space then collapsed
    (runs to one space, none at either end).  The resolver returns the
    token the key maps to in the field's index; on a miss it logs an "enum"
    issue with the original raw value and returns the empty string.
    "Retail/Leisure" has the key "retail leisure". *)
Theorem enum_key_spaces_out_other_characters :
  (∀ raw, normalise_enum_value raw
          = Py.join " " (Py.split (Py.smap space_outside (Py.lower raw)))) ∧
  (∀ fieldname raw g,
     normalise_enum fieldname raw g
     = match field_value g !! fieldname ≫= (λ index, index !! normalise_enum_value raw) with
       | Some token => (Return token, g)
       | None => (Return "", logged g fieldname "enum" raw)
       end) ∧
  normalise_enum_value "Retail/Leisure" = "retail leisure".
Proof.
  split; [|split; [|reflexivity]].
  - intros raw. unfold normalise_enum_value, Py.split. f_equal.
    destruct (sub_not_enum_fields (Py.lower raw)) as [(w & ws1 & ws2 & -> & -> & Hf) _].
    destruct w; [now rewrite !filter_skip_empty|].
    now rewrite !filter_keep_cons, Hf.
  - intros fieldname raw g. unfold normalise_enum.
    destruct (_ ≫= _); reflexivity.
Qed.

(** ** Carry-forward of default values (C7) *)

Lemma fill_defaults_lookup (entries : list (string * string)) :
  ∀ o : row,
    NoDup entries.*1 →
    (∀ k v, (k, v) ∈ entries → is_Some (o !! k)) →
    ∃ o' : row,
      fill_defaults entries o = Return o' ∧
      ∀ f cur, o !! f = Some cur →
        o' !! f = Some (if Py.is_empty cur
                        then from_option id cur
                               ((list_to_map entries : gmap string string) !! f)
                        else cur).
Proof.
  induction entries as [|[k v] rest IH]; intros o Hnd Hin.
  - exists o. split; [reflexivity|]. intros f cur Hf.
    rewrite list_to_map_nil, lookup_empty. simpl. now destruct (Py.is_empty cur).
  - rewrite fmap_cons in Hnd. apply NoDup_cons in Hnd as [Hk Hnd].
    destruct (Hin k v) as [cur0 Hcur0]; [left|].
    cbn [fill_defaults]. unfold obind, getitem. rewrite Hcur0.
    set (o1 := if Py.is_empty cur0 then <[k := v]> o else o).
    destruct (IH o1 Hnd) as (o' & Hrun & Hlook).
    { intros k' v' Hin'. destruct (Hin k' v') as [c Hc]; [now right|].
      subst o1. destruct (Py.is_empty cur0); [|eauto].
      destruct (decide (k = k')) as [->|Hne];
        [rewrite lookup_insert_eq|rewrite lookup_insert_ne by done]; eauto. }
    exists o'. split; [exact Hrun|]. intros f cur Hf.
    rewrite list_to_map_cons.
    destruct (decide (k = f)) as [->|Hne].
    + rewrite lookup_insert_eq. simpl from_option.
      rewrite Hcur0 in Hf. injection Hf as <-.
      assert (Hnone : (list_to_map rest : gmap string string) !! f = None)
        by now apply not_elem_of_list_to_map_1.
      subst o1. destruct (Py.is_empty cur0) eqn:He.
      * rewrite (Hlook f v) by apply lookup_insert_eq.
        rewrite Hnone. simpl. now destruct (Py.is_empty v).
      * rewrite (Hlook f cur0 Hcur0). now rewrite He.
    + rewrite lookup_insert_ne by done. apply Hlook.
      subst o1. destruct (Py.is_empty cur0); [|exact Hf].
      now rewrite lookup_insert_ne.
Qed.

(** the second loop of [default] *)
Lemma commit_defaults_lookup (dups : list string) (o : row) :
  ∀ g,
    (∀ f, f ∈ dups → is_Some (o !! f)) →
    ∃ g',
      for_each dups (λ f,
        bind (lift (getitem o f)) (λ v,
          λ g, (Return (), set_default_values (<[f := v]> (default_values g)) g))) g
      = (Return (), g') ∧
      (∀ f, f ∈ dups → default_values g' !! f = o !! f) ∧
      (∀ f, f ∉ dups → default_values g' !! f = default_values g !! f) ∧
      log g' = log g ∧ row_number g' = row_number g.
Proof.
  induction dups as [|f0 rest IH]; intros g Hin.
  - exists g. repeat split; try reflexivity. intros f Hf. now apply elem_of_nil in Hf.
  - destruct (Hin f0) as [v Hv]; [left|].
    cbn [for_each]. unfold bind at 1, bind at 1, lift, getitem. rewrite Hv.
    destruct (IH (set_default_values (<[f0 := v]> (default_values g)) g))
      as (g' & Hrun & Hdup & Hother & Hlog & Hrow); [intros f Hf; apply Hin; now right|].
    exists g'. split; [exact Hrun|]. repeat split.
    + intros f Hf. destruct (decide (f ∈ rest)) as [Hr|Hr]; [now apply Hdup|].
      apply elem_of_cons in Hf as [->|Hf]; [|contradiction].
      rewrite (Hother f0 Hr). simpl. now rewrite lookup_insert_eq.
    + intros f Hf. apply not_elem_of_cons in Hf as [Hne Hf].
      rewrite (Hother f Hf). simpl. now rewrite lookup_insert_ne.
    + exact Hlog.
    + exact Hrow.
Qed.

(** C7. For a record that has every field of the duplicate list and every
    field with a stored value, [default] first fills: a field whose value
    is empty takes the stored value if there is one; then it commits: the
    stored value of every field of the duplicate list becomes the value of
    the filled record, empty or not.  Five rows with the values X, blank,
    blank, Y, blank in a duplicate-listed field come out of the main block
    as X, X, X, Y, Y. *)
Theorem default_fills_then_commits schema (o : row) g :
  (∀ f, f ∈ duplicate schema → is_Some (o !! f)) →
  (∀ f, is_Some (default_values g !! f) → is_Some (o !! f)) →
  (∃ (o' : row) g',
     default schema o g = (Return o', g') ∧
     (∀ f cur, o !! f = Some cur →
        o' !! f = Some (if Py.is_empty cur
                        then from_option id cur (default_values g !! f)
                        else cur)) ∧
     (∀ f, f ∈ duplicate schema → default_values g' !! f = o' !! f) ∧
     log g' = log g) ∧
  written (main Sample.schema_carry Sample.transform_nowhere Sample.url_any
             Sample.re_sub_unused
             (map Sample.carry_row ["X"; ""; ""; "Y"; ""]) [] [] [])
  = Some (map Sample.carry_row ["X"; "X"; "X"; "Y"; "Y"]).
Proof.
  intros Hdup Hstored. split; [|vm_compute; reflexivity].
  destruct (fill_defaults_lookup (map_to_list (default_values g)) o)
    as (o' & Hfill & Hlook).
  { apply NoDup_fst_map_to_list. }
  { intros k v Hkv. apply elem_of_map_to_list in Hkv. apply Hstored. eauto. }
  rewrite list_to_map_to_list in Hlook.
  destruct (commit_defaults_lookup (duplicate schema) o' g)
    as (g' & Hrun & Hcommit & _ & Hlog & _).
  { intros f Hf. destruct (Hdup f Hf) as [cur Hcur].
    rewrite (Hlook f cur Hcur). eauto. }
  exists o', g'. split; [|auto].
  unfold default, bind. rewrite Hfill.
  unfold bind in Hrun. now rewrite Hrun.
Qed.

Lemma default_fills_then_commits_witness :
  (∃ (o' : row) g',
     default Sample.schema_carry (Sample.carry_row "")
       (set_default_values {["SiteReference" := "X"]} initial_globals) = (Return o', g') ∧
     (∀ f cur, Sample.carry_row "" !! f = Some cur →
        o' !! f = Some (if Py.is_empty cur
                        then from_option id cur
                               (default_values
                                  (set_default_values {["SiteReference" := "X"]}
                                     initial_globals) !! f)
                        else cur)) ∧
     (∀ f, f ∈ duplicate Sample.schema_carry → default_values g' !! f = o' !! f) ∧
     log g' = log (set_default_values {["SiteReference" := "X"]} initial_globals)) ∧
  written (main Sample.schema_carry Sample.transform_nowhere Sample.url_any
             Sample.re_sub_unused
             (map Sample.carry_row ["X"; ""; ""; "Y"; ""]) [] [] [])
  = Some (map Sample.carry_row ["X"; "X"; "X"; "Y"; "Y"]).
Proof.
  apply (default_fills_then_commits Sample.schema_carry (Sample.carry_row "")
           (set_default_values {["SiteReference" := "X"]} initial_globals)).
  - intros f Hf. apply list_elem_of_singleton in Hf as ->. now eexists.
  - intros f [v Hv]. simpl in Hv. apply lookup_singleton_Some in Hv as [<- _].
    now eexists.
Defined.

(** The filled record and the committed state of that step: the blank
    value takes the stored "X", and "X" stays stored. *)
Example default_step_sample :
  default Sample.schema_carry (Sample.carry_row "")
    (set_default_values {["SiteReference" := "X"]} initial_globals)
  = (Return (Sample.carry_row "X"),
     set_default_values {["SiteReference" := "X"]} initial_globals).
Proof. vm_compute. reflexivity. Qed.

(** ** The order of the date patterns (C8) *)

Lemma try_patterns_first pre p post value d :
  (∀ q, q ∈ pre → ∃ e, Strptime.strptime value q = Raise e) →
  Strptime.strptime value p = Return d →
  try_patterns (pre ++ p :: post) value = Some (Strptime.strftime d).
Proof.
  intros Hpre Hp. induction pre as [|q pre IH]; simpl.
  - now rewrite Hp.
  - destruct (Hpre q) as [e He]; [left|]. rewrite He.
    apply IH. intros q' Hq'. apply Hpre. now right.
Qed.

(** C8. [normalise_date] returns the date of the first pattern of its list
    that parses the stripped value, whatever later patterns would make of
    it, and logs nothing then.  The month-first pattern is the last of the
    list.  For "01/02/2020" the first pattern that parses is the day-first
    one, the twentieth; the result is "2020-02-01", where the month-first
    pattern would have read the second of January. *)
Theorem normalise_date_first_pattern_wins pre p post context fieldvalue d g :
  date_patterns = pre ++ p :: post →
  (∀ q, q ∈ pre →
     ∃ e, Strptime.strptime (Py.strip date_strip_chars fieldvalue) q = Raise e) →
  Strptime.strptime (Py.strip date_strip_chars fieldvalue) p = Return d →
  normalise_date context fieldvalue g = (Return (Strptime.strftime d), g) ∧
  last date_patterns = Some "%m/%d/%Y" ∧
  (∃ pre' post',
     date_patterns = pre' ++ "%d/%m/%Y" :: post' ∧
     "%m/%d/%Y" ∈ post' ∧
     Forall (λ q, ∃ e, Strptime.strptime "01/02/2020" q = Raise e) pre' ∧
     Strptime.strptime "01/02/2020" "%d/%m/%Y"
       = Return {| Strptime.year := 2020; Strptime.month := 2; Strptime.day := 1 |}) ∧
  normalise_date context "01/02/2020" g = (Return "2020-02-01", g) ∧
  Strptime.strptime "01/02/2020" "%m/%d/%Y"
    = Return {| Strptime.year := 2020; Strptime.month := 1; Strptime.day := 2 |}.
Proof.
  intros Hsplit Hpre Hp. split; [|split; [|split; [|split]]].
  - unfold normalise_date. rewrite Hsplit.
    now rewrite (try_patterns_first pre p post _ d Hpre Hp).
  - reflexivity.
  - exists (take 19 date_patterns), (drop 20 date_patterns).
    split; [reflexivity|]. split.
    + vm_compute. repeat constructor.
    + split; [|vm_compute; reflexivity].
      repeat (apply Forall_cons; split; [eexists; vm_compute; reflexivity|]).
      apply Forall_nil_2.
  - reflexivity.
  - vm_compute. reflexivity.
Qed.

Lemma normalise_date_first_pattern_wins_witness :
  normalise_date "StartDate" "13/02/2020" initial_globals
    = (Return (Strptime.strftime
                 {| Strptime.year := 2020; Strptime.month := 2; Strptime.day := 13 |}),
       initial_globals) ∧
  last date_patterns = Some "%m/%d/%Y" ∧
  (∃ pre' post',
     date_patterns = pre' ++ "%d/%m/%Y" :: post' ∧
     "%m/%d/%Y" ∈ post' ∧
     Forall (λ q, ∃ e, Strptime.strptime "01/02/2020" q = Raise e) pre' ∧
     Strptime.strptime "01/02/2020" "%d/%m/%Y"
       = Return {| Strptime.year := 2020; Strptime.month := 2; Strptime.day := 1 |}) ∧
  normalise_date "StartDate" "01/02/2020" initial_globals
    = (Return "2020-02-01", initial_globals) ∧
  Strptime.strptime "01/02/2020" "%m/%d/%Y"
    = Return {| Strptime.year := 2020; Strptime.month := 1; Strptime.day := 2 |}.
Proof.
  apply (normalise_date_first_pattern_wins
           (take 19 date_patterns) "%d/%m/%Y" (drop 20 date_patterns)
           "StartDate" "13/02/2020"
           {| Strptime.year := 2020; Strptime.month := 2; Strptime.day := 13 |}
           initial_globals).
  - reflexivity.
  - intros q Hq. apply list_elem_of_In in Hq. simpl in Hq.
    repeat (destruct Hq as [<-|Hq]; [eexists; vm_compute; reflexivity|]).
    destruct Hq.
  - vm_compute. reflexivity.
Defined.

(** ** Enum patch rows (C9) *)

Lemma keeps_log_ret {A} (a : A) : keeps_log (ret a).
Proof. intros g r g' H. now inversion H. Qed.

Lemma keeps_log_raise {A} e : keeps_log (raise (A := A) e).
Proof. intros g r g' H. now inversion H. Qed.

Lemma keeps_log_lift {A} (o : outcome A) : keeps_log (lift o).
Proof. intros g r g' H. now inversion H. Qed.

Lemma keeps_log_bind {A B} (m : M A) (k : A → M B) :
  keeps_log m → (∀ a, keeps_log (k a)) → keeps_log (bind m k).
Proof.
  intros Hm Hk g r g' H. unfold bind in H.
  destruct (m g) as [[a|e] g1] eqn:Hmg.
  - destruct (Hm _ _ _ Hmg) as [Hl Hr]. destruct (Hk a _ _ _ H) as [Hl' Hr'].
    split; congruence.
  - inversion H; subst. exact (Hm _ _ _ Hmg).
Qed.

Lemma keeps_log_for_each {A} (l : list A) (body : A → M unit) :
  (∀ x, keeps_log (body x)) → keeps_log (for_each l body).
Proof.
  intros Hb. induction l as [|x l IH]; simpl.
  - apply keeps_log_ret.
  - apply keeps_log_bind; [apply Hb|intros _; exact IH].
Qed.

Lemma keeps_log_organisation_uri_set k v : keeps_log (organisation_uri_set k v).
Proof. intros g r g' H. now inversion H. Qed.

Lemma keeps_log_field_enum_set k1 k2 v : keeps_log (field_enum_set k1 k2 v).
Proof.
  intros g r g' H. unfold field_enum_set in H.
  destruct (setitem2 _ _ _ _); now inversion H.
Qed.

Lemma keeps_log_field_value_set k1 k2 v : keeps_log (field_value_set k1 k2 v).
Proof.
  intros g r g' H. unfold field_value_set in H.
  destruct (setitem2 _ _ _ _); now inversion H.
Qed.

Ltac keeps_log_step :=
  first
    [ apply keeps_log_ret | apply keeps_log_raise | apply keeps_log_lift
    | apply keeps_log_organisation_uri_set | apply keeps_log_field_enum_set
    | apply keeps_log_field_value_set
    | apply keeps_log_for_each; intros ?
    | apply keeps_log_bind; [|intros ?]
    | (intros ? ? ? ?; match goal with H : (_, _) = (_, _) |- _ => now inversion H end) ].

Lemma keeps_log_load_organisation_rows rows :
  ∀ organisation, keeps_log (load_organisation_rows rows organisation).
Proof.
  induction rows as [|r rows IH]; intros organisation; cbn [load_organisation_rows].
  - apply keeps_log_ret.
  - apply keeps_log_bind; [apply keeps_log_lift|intros org].
    apply keeps_log_bind; [|intros _; apply IH].
    destruct (r !! "opendatacommunities"); [|apply keeps_log_ret].
    repeat (apply keeps_log_bind;
            [first [apply keeps_log_organisation_uri_set | apply keeps_log_lift]|intros ?]).
    destruct (Py.contains _ _); keeps_log_step.
Qed.

Lemma keeps_log_load_organisations organisation_csv patch_csv :
  keeps_log (load_organisations organisation_csv patch_csv).
Proof.
  unfold load_organisations.
  apply keeps_log_bind; [apply keeps_log_load_organisation_rows|intros organisation].
  apply keeps_log_for_each. intros r.
  do 2 (apply keeps_log_bind; [apply keeps_log_lift|intros ?]).
  destruct (negb _); [|apply keeps_log_ret].
  repeat keeps_log_step.
Qed.

Lemma keeps_log_apply_enum_patch r : keeps_log (apply_enum_patch r).
Proof.
  unfold apply_enum_patch.
  do 3 (apply keeps_log_bind; [apply keeps_log_lift|intros ?]).
  apply keeps_log_bind.
  - intros g res g' H. now inversion H.
  - intros declared. destruct (declared !! _); [|apply keeps_log_raise].
    apply keeps_log_bind; [|intros _; apply keeps_log_field_value_set].
    intros g res g' H. now inversion H.
Qed.

Lemma keeps_log_load_field_value schema patch_csv :
  keeps_log (load_field_value schema patch_csv).
Proof.
  unfold load_field_value, load_schema_enums.
  apply keeps_log_bind;
    [|intros _; apply keeps_log_for_each; apply keeps_log_apply_enum_patch].
  apply keeps_log_for_each. intros f.
  destruct (constraints_enum f); [|apply keeps_log_ret].
  apply keeps_log_bind; [intros g res g' H; now inversion H|intros _].
  apply keeps_log_bind; [intros g res g' H; now inversion H|intros _].
  apply keeps_log_for_each. intros enum.
  apply keeps_log_bind; [apply keeps_log_field_enum_set|intros _].
  apply keeps_log_field_value_set.
Qed.

(** A patch row that names a token outside the enum its field declares
    raises the [ValueError] that names the field and the token. *)
Lemma apply_enum_patch_undeclared (r : row) g f e v (d : gmap string string) :
  r !! "field" = Some f → r !! "enum" = Some e → r !! "value" = Some v →
  field_enum g !! f = Some d → d !! e = None →
  apply_enum_patch r g = (Raise (ValueError (invalid_enum_message f e)), g).
Proof.
  intros Hf He Hv Hd Hnone. unfold apply_enum_patch, bind, lift, getitem.
  now rewrite Hf, He, Hv, Hd, Hnone.
Qed.

(** A patch row for a field that declares no enum at all raises the
    [KeyError] of the lookup [field_enum[fieldname]], before the test that
    would have raised the [ValueError]. *)
Lemma apply_enum_patch_no_enum (r : row) g f e v :
  r !! "field" = Some f → r !! "enum" = Some e → r !! "value" = Some v →
  field_enum g !! f = None →
  apply_enum_patch r g = (Raise (KeyError f), g).
Proof.
  intros Hf He Hv Hd. unfold apply_enum_patch, bind, lift, getitem.
  now rewrite Hf, He, Hv, Hd.
Qed.

(** Whatever exception the patch row raises after the rows before it were
    accepted ends the run before the output file is opened: no row is
    written and the log stays empty. *)
Lemma main_aborts_in_load schema transform validators_url re_sub
    input_csv organisation_csv patch_organisation_csv pre bad post g0 g1 e :
  load_organisations organisation_csv patch_organisation_csv initial_globals
    = (Return (), g0) →
  load_field_value schema pre g0 = (Return (), g1) →
  apply_enum_patch bad g1 = (Raise e, g1) →
  main schema transform validators_url re_sub input_csv organisation_csv
       patch_organisation_csv (pre ++ bad :: post)
    = {| written := None; error := Some e; final := g1 |} ∧
  log g1 = [] ∧ row_number g1 = 0%N.
Proof.
  intros Horg Hpre Hbad.
  destruct (keeps_log_load_organisations _ _ _ _ _ Horg) as [Hl0 Hr0].
  destruct (keeps_log_load_field_value _ _ _ _ _ Hpre) as [Hl1 Hr1].
  split; [|split; [now rewrite Hl1, Hl0|now rewrite Hr1, Hr0]].
  unfold main, bind. rewrite Horg.
  unfold load_field_value, bind in Hpre |- *.
  destruct (load_schema_enums schema g0) as [[[]|e0] g0'] eqn:Hschema; [|discriminate].
  rewrite (for_each_app pre (bad :: post) _ _ _ Hpre).
  simpl for_each. unfold bind. now rewrite Hbad.
Qed.

(** The first half of C9, as the script has it: an undeclared token of a
    field that declares an enum aborts the run with the error that names
    both. *)
Lemma undeclared_enum_token_aborts schema transform validators_url re_sub
    input_csv organisation_csv patch_organisation_csv pre (bad : row) post g0 g1
    f e v (d : gmap string string) :
  load_organisations organisation_csv patch_organisation_csv initial_globals
    = (Return (), g0) →
  load_field_value schema pre g0 = (Return (), g1) →
  bad !! "field" = Some f → bad !! "enum" = Some e → bad !! "value" = Some v →
  field_enum g1 !! f = Some d → d !! e = None →
  main schema transform validators_url re_sub input_csv organisation_csv
       patch_organisation_csv (pre ++ bad :: post)
    = {| written := None; error := Some (ValueError (invalid_enum_message f e));
         final := g1 |} ∧
  log g1 = [] ∧ row_number g1 = 0%N.
Proof.
  intros Horg Hpre Hf He Hv Hd Hnone.
  apply (main_aborts_in_load _ _ _ _ _ _ _ _ _ _ g0 g1); try assumption.
  now apply (apply_enum_patch_undeclared bad g1 f e v d).
Qed.

(** C9. The claim is that a patch row naming a token its field does not
    declare aborts the load with an error that identifies field and token,
    before any record is processed.  The run is aborted, nothing written
    and nothing logged; the error identifies both only when the field
    declares some enum.  For a field with no enum in the schema the lookup
    of the field's declared tokens raises [KeyError] with the field name
    alone, whatever the token. *)
Theorem patch_for_field_without_enum_raises_KeyError
    schema transform validators_url re_sub
    input_csv organisation_csv patch_organisation_csv pre (bad : row) post g0 g1 f e v :
  load_organisations organisation_csv patch_organisation_csv initial_globals
    = (Return (), g0) →
  load_field_value schema pre g0 = (Return (), g1) →
  bad !! "field" = Some f → bad !! "enum" = Some e → bad !! "value" = Some v →
  field_enum g1 !! f = None →
  main schema transform validators_url re_sub input_csv organisation_csv
       patch_organisation_csv (pre ++ bad :: post)
    = {| written := None; error := Some (KeyError f); final := g1 |} ∧
  log g1 = [] ∧ row_number g1 = 0%N.
Proof.
  intros Horg Hpre Hf He Hv Hd.
  apply (main_aborts_in_load _ _ _ _ _ _ _ _ _ _ g0 g1); try assumption.
  now apply (apply_enum_patch_no_enum bad g1 f e v).
Qed.

Lemma patch_for_field_without_enum_raises_KeyError_witness :
  main Sample.schema_enum Sample.transform_nowhere Sample.url_any Sample.re_sub_unused
       [ <["OwnershipStatus" := "mixed ownership"]> {["Notes" := "n/a"]} ] [] []
       ([] ++ Sample.patch_row "Notes" "mixed ownership" "mixed" :: [])
    = {| written := None; error := Some (KeyError "Notes");
         final := snd (load_field_value Sample.schema_enum [] initial_globals) |} ∧
  log (snd (load_field_value Sample.schema_enum [] initial_globals)) = [] ∧
  row_number (snd (load_field_value Sample.schema_enum [] initial_globals)) = 0%N.
Proof.
  apply (patch_for_field_without_enum_raises_KeyError
           Sample.schema_enum Sample.transform_nowhere Sample.url_any Sample.re_sub_unused
           [ <["OwnershipStatus" := "mixed ownership"]> {["Notes" := "n/a"]} ] [] []
           [] (Sample.patch_row "Notes" "mixed ownership" "mixed") []
           initial_globals (snd (load_field_value Sample.schema_enum [] initial_globals))
           "Notes" "mixed ownership" "mixed");
    vm_compute; reflexivity.
Defined.

(** On the sample schema: a token the field does not declare is refused by
    name, and an accepted patch row lets the run go on to the records. *)
Example undeclared_enum_token_sample :
  error (main Sample.schema_enum Sample.transform_nowhere Sample.url_any
           Sample.re_sub_unused
           [ <["OwnershipStatus" := "mixed ownership"]> {["Notes" := "n/a"]} ] [] []
           [ Sample.patch_row "OwnershipStatus" "private" "privately owned" ])
  = Some (ValueError "invalid 'OwnershipStatus' enum 'private' in patch/enum.csv").
Proof. vm_compute. reflexivity. Qed.

Example accepted_enum_patch_sample :
  let r := main Sample.schema_enum Sample.transform_nowhere Sample.url_any
             Sample.re_sub_unused
             [ <["OwnershipStatus" := "Mixed"]> {["Notes" := "n/a"]} ] [] []
             [ Sample.patch_row "OwnershipStatus" "mixed ownership" "mixed" ] in
  written r = Some [ <["OwnershipStatus" := "mixed ownership"]> {["Notes" := "n/a"]} ] ∧
  error r = None ∧ log (final r) = [].
Proof. vm_compute. repeat split; reflexivity. Qed.

(** * Further properties of the script *)

#[local] Set Warnings "-clear-no-such-hyp".

(** ** The box test cannot hold of a pair and of the swapped pair *)

Lemma below_two_not_above_box v :
  ext_ltb v (Finite 2 1) = true → ext_ltb (Finite 99 2) v = false.
Proof.
  destruct v as [a b| |]; simpl; try discriminate; [|reflexivity].
  intros H. apply Z.ltb_lt in H. apply Z.ltb_ge. lia.
Qed.

Lemma num_lt_two_not_gt_box x :
  num_lt x (Finite 2 1) = Return true → num_gt x (Finite 99 2) = Return false.
Proof.
  destruct x as [d|f]; unfold num_lt, num_gt.
  - destruct (extended_of_Decimal d); [|discriminate].
    intros H. injection H as H. now rewrite below_two_not_above_box.
  - destruct (extended_of_float f); [|discriminate].
    intros H. injection H as H. now rewrite below_two_not_above_box.
Qed.

Lemma and_then_true a b :
  and_then a b = Return true → a = Return true ∧ b = Return true.
Proof.
  unfold and_then, obind. destruct a as [[]|]; try discriminate. auto.
Qed.

(** A pair that lies within England as (longitude, latitude) does not lie
    there when swapped: the first two branches of the resolver never
    compete, whatever their order. *)
Theorem within_england_excludes_swap geox geoy :
  within_england geox geoy = Return true →
  within_england geoy geox = Return false.
Proof.
  unfold within_england at 1. intros H.
  apply and_then_true in H as [_ H]. apply and_then_true in H as [_ H].
  apply and_then_true in H as [_ H].
  unfold within_england, and_then, obind.
  now rewrite (num_lt_two_not_gt_box geox H).
Qed.

Lemma within_england_excludes_swap_witness :
  within_england (NDec (Dec.Fin false 515 (-1))) (NDec (Dec.Fin true 1 (-1)))
    = Return false.
Proof.
  apply (within_england_excludes_swap
           (NDec (Dec.Fin true 1 (-1))) (NDec (Dec.Fin false 515 (-1)))).
  vm_compute. reflexivity.
Defined.

(** ** What the normalisers do to the module state *)

Lemma log_then_empty fieldname datatype value g :
  bind (log_issue fieldname datatype value) (λ _, ret "") g
  = (Return "", logged g fieldname datatype value).
Proof. reflexivity. Qed.

Lemma normalise_integer_effect fieldname value g r g' :
  normalise_integer fieldname value g = (r, g') → unchanged_or_logged g r g'.
Proof.
  unfold normalise_integer. destruct (Py.int _).
  - intros H. inversion H. now left.
  - rewrite log_then_empty. intros H. inversion H. right. eauto.
Qed.

Lemma normalise_decimal_effect fieldname value p g r g' :
  normalise_decimal fieldname value p g = (r, g') → unchanged_or_logged g r g'.
Proof.
  unfold normalise_decimal. destruct (Dec.of_string _).
  - intros H. inversion H. now left.
  - rewrite log_then_empty. intros H. inversion H. right. eauto.
Qed.

Lemma normalise_organisation_uri_effect fieldname value g r g' :
  normalise_organisation_uri fieldname value g = (r, g') → unchanged_or_logged g r g'.
Proof.
  unfold normalise_organisation_uri.
  destruct (organisation_uri g !! _); [intros H; inversion H; now left|].
  destruct (organisation_uri g !! _); [intros H; inversion H; now left|].
  rewrite log_then_empty. intros H. inversion H. right. eauto.
Qed.

Lemma normalise_date_effect context value g r g' :
  normalise_date context value g = (r, g') → unchanged_or_logged g r g'.
Proof.
  unfold normalise_date. destruct (try_patterns _ _); [intros H; inversion H; now left|].
  destruct (field g); [|intros H; inversion H; now left].
  rewrite log_then_empty. intros H. inversion H. right. eauto.
Qed.

Lemma normalise_uri_effect validators_url fieldname value g r g' :
  normalise_uri validators_url fieldname value g = (r, g') → unchanged_or_logged g r g'.
Proof.
  unfold normalise_uri. destruct (validators_url _); [intros H; inversion H; now left|].
  rewrite log_then_empty. intros H. inversion H. right. eauto.
Qed.

Lemma normalise_enum_effect fieldname value g r g' :
  normalise_enum fieldname value g = (r, g') → unchanged_or_logged g r g'.
Proof.
  unfold normalise_enum. destruct (_ ≫= _); [intros H; inversion H; now left|].
  rewrite log_then_empty. intros H. inversion H. right. eauto.
Qed.

Lemma normalise_effect schema validators_url re_sub fieldname value g r g' :
  normalise schema validators_url re_sub fieldname value g = (r, g') →
  unchanged_or_logged g r g'.
Proof.
  unfold normalise. destruct (Py.is_empty value); [intros H; inversion H; now left|].
  unfold bind at 1, lift, getitem.
  destruct (fields schema !! fieldname) as [f|]; [|intros H; inversion H; now left].
  unfold bind at 1.
  destruct (apply_strip _ _ _) as [v|e]; [|intros H; inversion H; now left].
  destruct (String.eqb fieldname _); [apply normalise_organisation_uri_effect|].
  destruct (String.eqb (type f) "integer"); [apply normalise_integer_effect|].
  destruct (String.eqb (type f) "number"); [apply normalise_decimal_effect|].
  destruct (String.eqb (type f) "date"); [apply normalise_date_effect|].
  destruct (String.eqb (format f) "uri"); [apply normalise_uri_effect|].
  destruct (String.eqb _ "address"); [intros H; inversion H; now left|].
  destruct (bool_decide _); [apply normalise_enum_effect|].
  intros H; inversion H; now left.
Qed.

(** Whatever the field and the value, [normalise] leaves the indexes, the
    stored defaults and the row counter as they are: the state afterwards
    is the state before, or the state before with one issue appended to
    the log, and then the result is the empty string.  A value that
    normalises to something is never logged, and no call logs twice. *)
Theorem normalise_logs_only_beside_empty schema validators_url re_sub fieldname value g :
  let run := normalise schema validators_url re_sub fieldname value g in
  snd run = g ∨
  (fst run = Return "" ∧
   ∃ f datatype v,
     snd run = set_log (log g ++ [{| issue_row_number := row_number g;
                                     issue_field := f;
                                     issue_datatype := datatype;
                                     issue_value := v |}]) g).
Proof.
  intros run. subst run.
  destruct (normalise schema validators_url re_sub fieldname value g) as [r g'] eqn:H.
  apply normalise_effect in H. exact H.
Qed.

(** ** What the geometry resolver does to a record *)

Lemma set_geometry_shape (r : row) lon lat g res g' :
  set_geometry r lon lat g = (res, g') →
  g' = g ∧ ∀ r', res = Return r' → ∃ x y, r' = <["GeoY" := y]> (<["GeoX" := x]> r).
Proof.
  unfold set_geometry, bind, lift.
  destruct (format_decimal lon _) as [x|e]; [|intros H; inversion H; split; [done|discriminate]].
  destruct (format_decimal lat _) as [y|e]; [|intros H; inversion H; split; [done|discriminate]].
  unfold ret. intros H. inversion H. split; [done|].
  intros r' Hr. injection Hr as <-. eauto.
Qed.

Lemma reinsert_geometry (r : row) x y :
  <["GeoY" := y]> (<["GeoX" := x]> (<["GeoY" := ""]> (<["GeoX" := ""]> r)))
  = <["GeoY" := y]> (<["GeoX" := x]> r).
Proof.
  apply map_eq. intros k. rewrite !lookup_insert.
  repeat case_decide; congruence.
Qed.

(** The record the resolver returns is the record it was given, or that
    record with GeoX and GeoY rewritten; it logs only together with
    blanking both. *)
Lemma normalise_geometry_shape transform (r : row) g r' g' :
  normalise_geometry transform r g = (Return r', g') →
  (r' = r ∧ g' = g) ∨
  (is_Some (r !! "GeoX") ∧ is_Some (r !! "GeoY") ∧
   ∃ x y, r' = <["GeoY" := y]> (<["GeoX" := x]> r) ∧
          (g' = g ∨ (x = "" ∧ y = "" ∧ g' = logged g "GeoX,GeoY" "OSGB" ","))).
Proof.
  unfold normalise_geometry.
  destruct (_ || _); [intros H; inversion H; now left|].
  unfold bind at 1, lift at 1, getitem.
  destruct (r !! "GeoX") as [gx|] eqn:Hx; [|discriminate].
  unfold bind at 1, lift at 1. destruct (Dec.of_string gx) as [geox|]; [|discriminate].
  unfold bind at 1, lift at 1.
  destruct (r !! "GeoY") as [gy|] eqn:Hy; [|discriminate].
  unfold bind at 1, lift at 1. destruct (Dec.of_string gy) as [geoy|]; [|discriminate].
  intros H. right. split; [eauto|]. split; [eauto|].
  assert (Hset : ∀ lon lat,
    set_geometry (<["GeoY" := ""]> (<["GeoX" := ""]> r)) lon lat g = (Return r', g') →
    ∃ x y, r' = <["GeoY" := y]> (<["GeoX" := x]> r) ∧
           (g' = g ∨ (x = "" ∧ y = "" ∧ g' = logged g "GeoX,GeoY" "OSGB" ","))).
  { intros lon lat Hs. apply set_geometry_shape in Hs as [-> Hs].
    destruct (Hs r' eq_refl) as (x & y & ->). exists x, y.
    split; [apply reinsert_geometry|now left]. }
  unfold bind at 1, lift at 1 in H.
  destruct (within_england (NDec geox) (NDec geoy)) as [[]|]; [now apply Hset in H| |discriminate].
  unfold bind at 1, lift at 1 in H.
  destruct (within_england (NDec geoy) (NDec geox)) as [[]|]; [now apply Hset in H| |discriminate].
  destruct (transform geox geoy) as [lat1 lon1].
  unfold bind at 1, lift at 1 in H.
  destruct (within_england (NFloat lon1) (NFloat lat1)) as [[]|];
    [now apply Hset in H| |discriminate].
  cbn [negb] in H. cbv iota in H.
  destruct (transform geoy geox) as [lat2 lon2].
  unfold bind at 1, lift at 1 in H.
  destruct (within_england (NFloat lon2) (NFloat lat2)) as [[]|];
    [now apply Hset in H| |discriminate].
  cbn [negb] in H. cbv iota in H.
  unfold bind, lift, getitem in H.
  rewrite lookup_insert_ne in H by discriminate.
  rewrite !lookup_insert_eq in H.
  cbn in H. inversion H. exists "", "". split.
  - reflexivity.
  - right. auto.
Qed.

(** The geometry resolver touches GeoX and GeoY only: every other field of
    the record comes back as it went in, no field is added or lost, and an
    issue is logged only when both coordinates come back blank. *)
Theorem normalise_geometry_frame transform (r : row) g r' g' :
  normalise_geometry transform r g = (Return r', g') →
  (∀ k, k ≠ "GeoX" → k ≠ "GeoY" → r' !! k = r !! k) ∧
  dom r' = dom r ∧
  (g' = g ∨
   (r' !! "GeoX" = Some "" ∧ r' !! "GeoY" = Some "" ∧
    g' = logged g "GeoX,GeoY" "OSGB" ",")).
Proof.
  intros H. apply normalise_geometry_shape in H
    as [[-> ->]|(Hx & Hy & x & y & -> & Hg)].
  - repeat split; auto.
  - split; [|split].
    + intros k Hkx Hky. now rewrite !lookup_insert_ne.
    + rewrite dom_insert_lookup_L by now rewrite lookup_insert_ne.
      now rewrite dom_insert_lookup_L.
    + destruct Hg as [->|(-> & -> & ->)]; [now left|]. right.
      rewrite lookup_insert_ne by discriminate. now rewrite !lookup_insert_eq.
Qed.

Lemma normalise_geometry_frame_witness :
  let r : row := <["Site" := "A1"]> (<["GeoX" := "-0.1"]> {["GeoY" := "51.5"]}) in
  let r' : row := <["GeoY" := "51.5"]> (<["GeoX" := "-0.1"]> r) in
  (∀ k, k ≠ "GeoX" → k ≠ "GeoY" → r' !! k = r !! k) ∧
  dom r' = dom r ∧
  (initial_globals = initial_globals ∨
   (r' !! "GeoX" = Some "" ∧ r' !! "GeoY" = Some "" ∧
    initial_globals = logged initial_globals "GeoX,GeoY" "OSGB" ",")).
Proof.
  intros r r'.
  apply (normalise_geometry_frame Sample.transform_nowhere r initial_globals r'
           initial_globals).
  vm_compute. reflexivity.
Defined.

(** ** The log and the written rows of a run *)

Lemma appends_log_nothing {A} (m : M A) :
  (∀ g r g', m g = (r, g') → log g' = log g ∧ row_number g' = row_number g) →
  appends_log m.
Proof.
  intros Hm g r g' H. destruct (Hm g r g' H) as [Hl Hr]. split; [exact Hr|].
  exists []. rewrite app_nil_r. split; [exact Hl|constructor].
Qed.

Lemma appends_log_ret {A} (a : A) : appends_log (ret a).
Proof. apply appends_log_nothing. intros g r g' H. now inversion H. Qed.

Lemma appends_log_lift {A} (o : outcome A) : appends_log (lift o).
Proof. apply appends_log_nothing. intros g r g' H. now inversion H. Qed.

Lemma appends_log_bind {A B} (m : M A) (k : A → M B) :
  appends_log m → (∀ a, appends_log (k a)) → appends_log (bind m k).
Proof.
  intros Hm Hk g r g' H. unfold bind in H.
  destruct (m g) as [[a|e] g1] eqn:Hmg.
  - destruct (Hm _ _ _ Hmg) as (Hr & new1 & Hl & Hall).
    destruct (Hk a _ _ _ H) as (Hr' & new2 & Hl' & Hall').
    split; [congruence|]. exists (new1 ++ new2). split.
    + now rewrite Hl', Hl, app_assoc.
    + apply Forall_app. split; [exact Hall|]. now rewrite <- Hr.
  - inversion H; subst. exact (Hm _ _ _ Hmg).
Qed.

Lemma appends_log_for_each {A} (l : list A) (body : A → M unit) :
  (∀ x, appends_log (body x)) → appends_log (for_each l body).
Proof.
  intros Hb. induction l as [|x l IH]; simpl.
  - apply appends_log_ret.
  - apply appends_log_bind; [apply Hb|intros _; exact IH].
Qed.

Lemma appends_log_of_effect (m : M string) :
  (∀ g r g', m g = (r, g') → unchanged_or_logged g r g') → appends_log m.
Proof.
  intros Hm g r g' H. destruct (Hm g r g' H) as [->|(_ & f & dt & v & ->)].
  - split; [reflexivity|]. exists []. rewrite app_nil_r. split; [reflexivity|constructor].
  - split; [reflexivity|]. eexists. split; [reflexivity|]. now repeat constructor.
Qed.

Lemma appends_log_normalise_fields schema validators_url re_sub names input :
  ∀ o, appends_log (normalise_fields schema validators_url re_sub names input o).
Proof.
  induction names as [|f names IH]; intros o; cbn [normalise_fields].
  - apply appends_log_ret.
  - apply appends_log_bind.
    { apply appends_log_nothing. intros g r g' H. now inversion H. }
    intros _. apply appends_log_bind; [apply appends_log_lift|intros raw].
    apply appends_log_bind; [|intros v; apply IH].
    apply appends_log_of_effect. intros g r g'. apply normalise_effect.
Qed.

Lemma normalise_geometry_state transform (r : row) g res g' :
  normalise_geometry transform r g = (res, g') →
  g' = g ∨ g' = logged g "GeoX,GeoY" "OSGB" ",".
Proof.
  unfold normalise_geometry.
  destruct (_ || _); [intros H; inversion H; now left|].
  unfold bind at 1, lift at 1, getitem.
  destruct (r !! "GeoX") as [gx|]; [|intros H; inversion H; now left].
  unfold bind at 1, lift at 1.
  destruct (Dec.of_string gx) as [geox|]; [|intros H; inversion H; now left].
  unfold bind at 1, lift at 1.
  destruct (r !! "GeoY") as [gy|]; [|intros H; inversion H; now left].
  unfold bind at 1, lift at 1.
  destruct (Dec.of_string gy) as [geoy|]; [|intros H; inversion H; now left].
  assert (Hset : ∀ lon lat,
    set_geometry (<["GeoY" := ""]> (<["GeoX" := ""]> r)) lon lat g = (res, g') →
    g' = g ∨ g' = logged g "GeoX,GeoY" "OSGB" ",").
  { intros lon lat Hs. apply set_geometry_shape in Hs as [-> _]. now left. }
  unfold bind at 1, lift at 1.
  destruct (within_england (NDec geox) (NDec geoy)) as [[]|];
    [apply Hset| |intros H; inversion H; now left].
  unfold bind at 1, lift at 1.
  destruct (within_england (NDec geoy) (NDec geox)) as [[]|];
    [apply Hset| |intros H; inversion H; now left].
  destruct (transform geox geoy) as [lat1 lon1].
  unfold bind at 1, lift at 1.
  destruct (within_england (NFloat lon1) (NFloat lat1)) as [[]|];
    [apply Hset| |intros H; inversion H; now left].
  cbn [negb]. cbv iota.
  destruct (transform geoy geox) as [lat2 lon2].
  unfold bind at 1, lift at 1.
  destruct (within_england (NFloat lon2) (NFloat lat2)) as [[]|];
    [apply Hset| |intros H; inversion H; now left].
  cbn [negb]. cbv iota.
  unfold bind, lift, getitem.
  rewrite lookup_insert_ne by discriminate.
  rewrite !lookup_insert_eq.
  cbn. intros H. inversion H. now right.
Qed.

Lemma appends_log_normalise_geometry transform (r : row) :
  appends_log (normalise_geometry transform r).
Proof.
  intros g res g' H. apply normalise_geometry_state in H as [->| ->].
  - split; [reflexivity|]. exists []. rewrite app_nil_r. split; [reflexivity|constructor].
  - split; [reflexivity|]. eexists. split; [reflexivity|]. now repeat constructor.
Qed.

Lemma appends_log_default schema (o : row) : appends_log (default schema o).
Proof.
  unfold default.
  apply appends_log_bind.
  { apply appends_log_nothing. intros g r g' H. now inversion H. }
  intros o'. apply appends_log_bind; [|intros _; apply appends_log_ret].
  apply appends_log_for_each. intros f.
  apply appends_log_bind; [apply appends_log_lift|intros v].
  apply appends_log_nothing. intros g r g' H. now inversion H.
Qed.

(** One pass of the loop over the reader: the row counter goes up by one,
    and every issue the pass logs carries the new number. *)
Lemma process_row_log schema transform validators_url re_sub input g r g' :
  process_row schema transform validators_url re_sub input g = (r, g') →
  row_number g' = (row_number g + 1)%N ∧
  ∃ new, log g' = log g ++ new ∧
         Forall (λ i, issue_row_number i = (row_number g + 1)%N) new.
Proof.
  unfold process_row. unfold bind at 1.
  intros H.
  assert (Hrest : appends_log
    (bind (normalise_fields schema validators_url re_sub (fieldnames schema) input ∅)
       (λ o, bind (normalise_geometry transform o) (λ o, default schema o)))).
  { apply appends_log_bind; [apply appends_log_normalise_fields|intros o].
    apply appends_log_bind; [apply appends_log_normalise_geometry|intros o'].
    apply appends_log_default. }
  apply Hrest in H. exact H.
Qed.

Lemma constant_rows_sorted (new : list issue) n :
  Forall (λ i, issue_row_number i = n) new →
  StronglySorted (λ a b, (issue_row_number a <= issue_row_number b)%N) new.
Proof.
  induction 1 as [|i new Hi Hall IH]; constructor; [exact IH|].
  eapply Forall_impl; [exact Hall|]. intros j Hj. simpl in *. lia.
Qed.

Lemma process_rows_log schema transform validators_url re_sub rows :
  ∀ out g,
    ∃ new,
      log (final (process_rows schema transform validators_url re_sub rows out g))
        = log g ++ new ∧
      Forall (λ i, (row_number g < issue_row_number i
                    <= row_number g + N.of_nat (length rows))%N) new ∧
      StronglySorted (λ a b, (issue_row_number a <= issue_row_number b)%N) new.
Proof.
  induction rows as [|r rows IH]; intros out g; cbn [process_rows].
  - exists []. rewrite app_nil_r. repeat split; constructor.
  - destruct (process_row schema transform validators_url re_sub r g)
      as [[o|e] g1] eqn:Hrow;
      apply process_row_log in Hrow as (Hn & new1 & Hl & Hall).
    + destruct (IH (out ++ [o]) g1) as (new2 & Hl2 & Hall2 & Hs2).
      exists (new1 ++ new2). split; [now rewrite Hl2, Hl, app_assoc|]. split.
      * apply Forall_app. split.
        -- eapply Forall_impl; [exact Hall|]. intros i Hi. simpl in *. lia.
        -- eapply Forall_impl; [exact Hall2|]. intros i Hi. simpl in *. lia.
      * apply StronglySorted_app_2; [|now apply (constant_rows_sorted _ _ Hall)|exact Hs2].
        intros a b Ha Hb.
        apply (proj1 (Forall_forall _ _) Hall) in Ha.
        apply (proj1 (Forall_forall _ _) Hall2) in Hb. simpl in *. lia.
    + cbn [final]. exists new1. split; [exact Hl|]. split.
      * eapply Forall_impl; [exact Hall|]. intros i Hi. simpl in *. lia.
      * now apply (constant_rows_sorted _ _ Hall).
Qed.

Lemma keeps_log_loads schema organisation_csv patch_organisation_csv patch_enum_csv :
  keeps_log (bind (load_organisations organisation_csv patch_organisation_csv)
                  (λ _, load_field_value schema patch_enum_csv)).
Proof.
  apply keeps_log_bind; [apply keeps_log_load_organisations|intros _].
  apply keeps_log_load_field_value.
Qed.

(** Every issue a run logs carries the number of the input row it arose
    in, counted from one, and the log is in row order: the loaders log
    nothing, and each pass over a row appends issues with that row's
    number.  This holds of runs that end in an exception as well. *)
Theorem main_log_is_in_row_order schema transform validators_url re_sub
    input_csv organisation_csv patch_organisation_csv patch_enum_csv :
  let run := main schema transform validators_url re_sub input_csv organisation_csv
               patch_organisation_csv patch_enum_csv in
  Forall (λ i, (1 <= issue_row_number i <= N.of_nat (length input_csv))%N)
         (log (final run)) ∧
  StronglySorted (λ a b, (issue_row_number a <= issue_row_number b)%N)
                 (log (final run)).
Proof.
  intros run. subst run. unfold main.
  destruct (bind (load_organisations organisation_csv patch_organisation_csv)
              (λ _, load_field_value schema patch_enum_csv) initial_globals)
    as [[[]|e] g] eqn:Hload;
    apply keeps_log_loads in Hload as [Hl Hr].
  - destruct (process_rows_log schema transform validators_url re_sub input_csv [] g)
      as (new & Hnew & Hall & Hsorted).
    rewrite Hnew, Hl. simpl. split; [|exact Hsorted].
    eapply Forall_impl; [exact Hall|]. intros i Hi. rewrite Hr in Hi. simpl in *. lia.
  - cbn [final]. rewrite Hl. split; constructor.
Qed.

(** *** The shape of the written rows *)

Lemma normalise_fields_dom schema validators_url re_sub names input :
  ∀ (o : row) g (o' : row) g',
    normalise_fields schema validators_url re_sub names input o g = (Return o', g') →
    dom o' = list_to_set names ∪ dom o.
Proof.
  induction names as [|f names IH]; intros o g o' g'; cbn [normalise_fields].
  - intros H. inversion H. set_solver.
  - unfold bind at 1. unfold bind at 1, lift, getitem.
    destruct (input !! f) as [raw|]; [|discriminate].
    unfold bind at 1.
    destruct (normalise schema validators_url re_sub f raw _) as [[v|e] g2];
      [|discriminate].
    intros H. apply IH in H. rewrite H, dom_insert_L. set_solver.
Qed.

Lemma fill_defaults_dom entries :
  ∀ o o' : row, fill_defaults entries o = Return o' → dom o' = dom o.
Proof.
  induction entries as [|[f v] rest IH]; intros o o'; cbn [fill_defaults].
  - intros H. now inversion H.
  - unfold obind, getitem. destruct (o !! f) as [cur|] eqn:Hf; [|discriminate].
    intros H. apply IH in H. rewrite H.
    destruct (Py.is_empty cur); [|reflexivity].
    apply dom_insert_lookup_L. eauto.
Qed.

Lemma default_dom schema (o : row) g (o' : row) g' :
  default schema o g = (Return o', g') → dom o' = dom o.
Proof.
  unfold default. unfold bind at 1.
  destruct (fill_defaults _ o) as [o1|] eqn:Hfill; [|discriminate].
  unfold bind. destruct (for_each _ _ g) as [[[]|] g1]; [|discriminate].
  unfold ret. intros H. inversion H; subst. now apply fill_defaults_dom in Hfill.
Qed.

Lemma process_row_dom schema transform validators_url re_sub input g (o' : row) g' :
  process_row schema transform validators_url re_sub input g = (Return o', g') →
  dom o' = list_to_set (fieldnames schema).
Proof.
  unfold process_row. unfold bind at 1. unfold bind at 1.
  destruct (normalise_fields _ _ _ _ _ _ _) as [[o1|] g1] eqn:H1; [|discriminate].
  unfold bind at 1.
  destruct (normalise_geometry _ _ _) as [[o2|] g2] eqn:H2; [|discriminate].
  intros H3. apply default_dom in H3. apply normalise_geometry_frame in H2 as (_ & H2 & _).
  apply normalise_fields_dom in H1. rewrite H3, H2, H1. set_solver.
Qed.

Lemma process_rows_written schema transform validators_url re_sub rows :
  ∀ out g,
    error (process_rows schema transform validators_url re_sub rows out g) = None →
    ∃ out',
      written (process_rows schema transform validators_url re_sub rows out g)
        = Some (out ++ out') ∧
      length out' = length rows ∧
      Forall (λ o : row, dom o = list_to_set (fieldnames schema)) out' ∧
      row_number (final (process_rows schema transform validators_url re_sub rows out g))
        = (row_number g + N.of_nat (length rows))%N.
Proof.
  induction rows as [|r rows IH]; intros out g; cbn [process_rows].
  - intros _. exists []. rewrite app_nil_r. cbn. repeat split; [constructor|lia].
  - destruct (process_row schema transform validators_url re_sub r g)
      as [[o|e] g1] eqn:Hrow; [|discriminate].
    intros Herr. destruct (IH (out ++ [o]) g1 Herr) as (out' & Hw & Hlen & Hdom & Hn).
    exists (o :: out'). split; [now rewrite Hw, <- app_assoc|].
    split; [simpl; now rewrite Hlen|]. split.
    + constructor; [now apply process_row_dom in Hrow|exact Hdom].
    + apply process_row_log in Hrow as [Hr _]. rewrite Hn, Hr. simpl length. lia.
Qed.

(** A run that ends without an exception has written one row for each input
    row, in order, each with exactly the field names of the schema as its
    keys, and the row counter stands at the number of input rows. *)
Theorem main_writes_one_schema_row_per_input schema transform validators_url re_sub
    input_csv organisation_csv patch_organisation_csv patch_enum_csv :
  let run := main schema transform validators_url re_sub input_csv organisation_csv
               patch_organisation_csv patch_enum_csv in
  error run = None →
  ∃ out,
    written run = Some out ∧
    length out = length input_csv ∧
    Forall (λ o : row, dom o = list_to_set (fieldnames schema)) out ∧
    row_number (final run) = N.of_nat (length input_csv).
Proof.
  intros run. subst run. unfold main.
  destruct (bind (load_organisations organisation_csv patch_organisation_csv)
              (λ _, load_field_value schema patch_enum_csv) initial_globals)
    as [[[]|e] g] eqn:Hload; [|discriminate].
  apply keeps_log_loads in Hload as [_ Hr]. intros Herr.
  destruct (process_rows_written schema transform validators_url re_sub input_csv [] g Herr)
    as (out & Hw & Hlen & Hdom & Hn).
  exists out. repeat split; try assumption. rewrite Hn, Hr. simpl. lia.
Qed.

Lemma main_writes_one_schema_row_per_input_witness :
  ∃ out,
    written (main Sample.schema_carry Sample.transform_nowhere Sample.url_any
               Sample.re_sub_unused (map Sample.carry_row ["X"; ""; "Y"]) [] [] [])
      = Some out ∧
    length out = length (map Sample.carry_row ["X"; ""; "Y"]) ∧
    Forall (λ o : row, dom o = list_to_set (fieldnames Sample.schema_carry)) out ∧
    row_number (final (main Sample.schema_carry Sample.transform_nowhere Sample.url_any
                         Sample.re_sub_unused (map Sample.carry_row ["X"; ""; "Y"])
                         [] [] []))
      = N.of_nat (length (map Sample.carry_row ["X"; ""; "Y"])).
Proof.
  apply (main_writes_one_schema_row_per_input Sample.schema_carry
           Sample.transform_nowhere Sample.url_any Sample.re_sub_unused
           (map Sample.carry_row ["X"; ""; "Y"]) [] [] []).
  vm_compute. reflexivity.
Defined.

(** ** The enum indexes hold declared tokens only *)

Lemma preserves_ret {A} I (a : A) : preserves I (ret a).
Proof. intros g r g' HI H. now inversion H; subst. Qed.

Lemma preserves_raise {A} I e : preserves I (raise (A := A) e).
Proof. intros g r g' HI H. now inversion H; subst. Qed.

Lemma preserves_lift {A} I (o : outcome A) : preserves I (lift o).
Proof. intros g r g' HI H. now inversion H; subst. Qed.

Lemma preserves_bind {A B} I (m : M A) (k : A → M B) :
  preserves I m → (∀ a, preserves I (k a)) → preserves I (bind m k).
Proof.
  intros Hm Hk g r g' HI H. unfold bind in H.
  destruct (m g) as [[a|e] g1] eqn:Hmg.
  - exact (Hk a _ _ _ (Hm _ _ _ HI Hmg) H).
  - inversion H; subst. exact (Hm _ _ _ HI Hmg).
Qed.

Lemma preserves_for_each {A} I (l : list A) (body : A → M unit) :
  (∀ x, x ∈ l → preserves I (body x)) → preserves I (for_each l body).
Proof.
  induction l as [|x l IH]; intros Hb; simpl.
  - apply preserves_ret.
  - apply preserves_bind; [apply Hb; left|intros _].
    apply IH. intros y Hy. apply Hb. now right.
Qed.

Lemma index_all_setdefault P k idx :
  index_all P idx → index_all P (setdefault_empty k idx).
Proof.
  intros H f inner key token. unfold setdefault_empty.
  destruct (idx !! k) eqn:Hk; [apply H|].
  destruct (decide (k = f)) as [->|Hne].
  - rewrite lookup_insert_eq. intros [= <-]. now rewrite lookup_empty.
  - rewrite lookup_insert_ne by done. apply H.
Qed.

Lemma index_all_setitem2 P k1 k2 v idx idx' :
  setitem2 k1 k2 v idx = Return idx' → P k1 k2 v → index_all P idx → index_all P idx'.
Proof.
  unfold setitem2, obind, getitem. destruct (idx !! k1) as [inner|] eqn:Hk; [|discriminate].
  intros [= <-] HP H f inner' key token.
  destruct (decide (k1 = f)) as [->|Hne].
  - rewrite lookup_insert_eq. intros [= <-].
    destruct (decide (k2 = key)) as [->|Hne2].
    + rewrite lookup_insert_eq. now intros [= <-].
    + rewrite lookup_insert_ne by done. now apply H.
  - rewrite lookup_insert_ne by done. apply H.
Qed.

Lemma preserves_sound_setdefault_enum schema k :
  preserves (enum_indexes_sound schema)
    (λ g, (Return (), set_field_enum (setdefault_empty k (field_enum g)) g)).
Proof.
  intros g r g' [He Hv] H. inversion H; subst. split; [|exact Hv].
  now apply index_all_setdefault.
Qed.

Lemma preserves_sound_setdefault_value schema k :
  preserves (enum_indexes_sound schema)
    (λ g, (Return (), set_field_value (setdefault_empty k (field_value g)) g)).
Proof.
  intros g r g' [He Hv] H. inversion H; subst. split; [exact He|].
  now apply index_all_setdefault.
Qed.

Lemma preserves_sound_field_enum_set schema f token :
  declared schema f token →
  preserves (enum_indexes_sound schema) (field_enum_set f token token).
Proof.
  intros Hd g r g' [He Hv] H. unfold field_enum_set in H.
  destruct (setitem2 _ _ _ _) as [idx|] eqn:Hs; inversion H; subst; [|now split].
  split; [|exact Hv]. simpl. now apply (index_all_setitem2 _ _ _ _ _ _ Hs).
Qed.

Lemma preserves_sound_field_value_set schema f key token :
  declared schema f token →
  preserves (enum_indexes_sound schema) (field_value_set f key token).
Proof.
  intros Hd g r g' [He Hv] H. unfold field_value_set in H.
  destruct (setitem2 _ _ _ _) as [idx|] eqn:Hs; inversion H; subst; [|now split].
  split; [exact He|]. simpl. now apply (index_all_setitem2 _ _ _ _ _ _ Hs).
Qed.

Lemma preserves_sound_load_schema_enums schema :
  preserves (enum_indexes_sound schema) (load_schema_enums schema).
Proof.
  unfold load_schema_enums. apply preserves_for_each. intros f Hf.
  destruct (constraints_enum f) as [enums|] eqn:Henums; [|apply preserves_ret].
  apply preserves_bind; [apply preserves_sound_setdefault_enum|intros _].
  apply preserves_bind; [apply preserves_sound_setdefault_value|intros _].
  apply preserves_for_each. intros token Htoken.
  assert (Hd : declared schema (name f) token) by (exists f, enums; auto).
  apply preserves_bind; [now apply preserves_sound_field_enum_set|intros _].
  now apply preserves_sound_field_value_set.
Qed.

Lemma preserves_sound_apply_enum_patch schema r :
  preserves (enum_indexes_sound schema) (apply_enum_patch r).
Proof.
  intros g res g' HI. unfold apply_enum_patch, bind, lift, getitem.
  destruct (r !! "field") as [f|]; [|intros H; now inversion H; subst].
  destruct (r !! "enum") as [e|]; [|intros H; now inversion H; subst].
  destruct (r !! "value") as [v|]; [|intros H; now inversion H; subst].
  destruct (field_enum g !! f) as [d|] eqn:Hd; [|intros H; now inversion H; subst].
  destruct (d !! e) as [t|] eqn:He; [|intros H; now inversion H; subst].
  destruct HI as [Henum Hvalue].
  destruct (Henum f d e t Hd He) as [<- Hdecl].
  apply (preserves_sound_field_value_set schema f (normalise_enum_value v) e Hdecl).
  apply (preserves_sound_setdefault_value schema f g (Return ()) _ (conj Henum Hvalue)).
  reflexivity.
Qed.

Lemma preserves_sound_load_field_value schema patch_csv :
  preserves (enum_indexes_sound schema) (load_field_value schema patch_csv).
Proof.
  unfold load_field_value.
  apply preserves_bind; [apply preserves_sound_load_schema_enums|intros _].
  apply preserves_for_each. intros r _. apply preserves_sound_apply_enum_patch.
Qed.

(** Starting from empty indexes, whatever the patch file holds and whether
    or not loading it succeeds, the enum resolver afterwards returns the
    empty string or a token the schema declares for that very field: the
    patch file can redirect a value to another declared token and can
    never bring a new token in. *)
Theorem normalise_enum_returns_declared_token schema patch_csv g0 res g
    fieldname raw token g' :
  field_enum g0 = ∅ → field_value g0 = ∅ →
  load_field_value schema patch_csv g0 = (res, g) →
  normalise_enum fieldname raw g = (Return token, g') →
  token = "" ∨ declared schema fieldname token.
Proof.
  intros He0 Hv0 Hload.
  assert (Hsound : enum_indexes_sound schema g).
  { apply (preserves_sound_load_field_value schema patch_csv g0 res g); [|exact Hload].
    split; intros f inner k t; rewrite ?He0, ?Hv0, lookup_empty; discriminate. }
  unfold normalise_enum.
  destruct (field_value g !! fieldname) as [index|] eqn:Hidx; simpl.
  - destruct (index !! normalise_enum_value raw) as [t|] eqn:Ht.
    + intros [= <- _]. right. exact (proj2 Hsound fieldname index _ t Hidx Ht).
    + rewrite log_then_empty. intros [= <- _]. now left.
  - rewrite log_then_empty. intros [= <- _]. now left.
Qed.

Lemma normalise_enum_returns_declared_token_witness :
  "mixed ownership" = "" ∨ declared Sample.schema_enum "OwnershipStatus" "mixed ownership".
Proof.
  apply (normalise_enum_returns_declared_token Sample.schema_enum
           [Sample.patch_row "OwnershipStatus" "mixed ownership" "mixed"]
           initial_globals (Return ())
           (snd (load_field_value Sample.schema_enum
                   [Sample.patch_row "OwnershipStatus" "mixed ownership" "mixed"]
                   initial_globals))
           "OwnershipStatus" "Mixed" "mixed ownership"
           (snd (load_field_value Sample.schema_enum
                   [Sample.patch_row "OwnershipStatus" "mixed ownership" "mixed"]
                   initial_globals)));
    vm_compute; reflexivity.
Defined.

(** ** An accepted patch row takes effect *)

Lemma for_each_app_inv {A} (l1 l2 : list A) (body : A → M unit) g g' :
  for_each (l1 ++ l2) body g = (Return (), g') →
  ∃ g1, for_each l1 body g = (Return (), g1) ∧ for_each l2 body g1 = (Return (), g').
Proof.
  revert g. induction l1 as [|x l1 IH]; intros g; simpl.
  - intros H. now exists g.
  - unfold bind. destruct (body x g) as [[[]|e] g2]; [|discriminate]. apply IH.
Qed.

Lemma apply_enum_patch_accepted (r : row) g g' f e v :
  r !! "field" = Some f → r !! "enum" = Some e → r !! "value" = Some v →
  apply_enum_patch r g = (Return (), g') →
  ∃ index : gmap string string,
    field_value g' !! f = Some index ∧ index !! normalise_enum_value v = Some e.
Proof.
  intros Hf He Hv. unfold apply_enum_patch, bind, lift, getitem.
  rewrite Hf, He, Hv.
  destruct (field_enum g !! f) as [d|]; [|discriminate].
  destruct (d !! e); [|discriminate].
  unfold field_value_set, setitem2, obind, getitem. cbn.
  destruct (setdefault_empty f (field_value g) !! f) as [inner|]; [|discriminate].
  intros [= <-]. cbn. exists (<[normalise_enum_value v := e]> inner).
  now rewrite !lookup_insert_eq.
Qed.

(** When loading succeeds, the last row of the patch file decides: every
    raw value with the same key as the row's value resolves to the row's
    enum token, and nothing is logged for it. *)
Theorem last_enum_patch_row_wins schema pre (r : row) g0 g f e v fieldvalue :
  load_field_value schema (pre ++ [r]) g0 = (Return (), g) →
  r !! "field" = Some f → r !! "enum" = Some e → r !! "value" = Some v →
  normalise_enum_value fieldvalue = normalise_enum_value v →
  normalise_enum f fieldvalue g = (Return e, g).
Proof.
  intros Hload Hf He Hv Hkey. unfold load_field_value, bind in Hload.
  destruct (load_schema_enums schema g0) as [[[]|] g1]; [|discriminate].
  apply for_each_app_inv in Hload as (g2 & _ & Hlast).
  simpl in Hlast. unfold bind in Hlast.
  destruct (apply_enum_patch r g2) as [[[]|] g3] eqn:Hr; [|discriminate].
  unfold ret in Hlast. injection Hlast as <-.
  destruct (apply_enum_patch_accepted r g2 g3 f e v Hf He Hv Hr) as (index & Hidx & Hk).
  unfold normalise_enum. rewrite Hidx. simpl. now rewrite Hkey, Hk.
Qed.

Lemma last_enum_patch_row_wins_witness :
  let g := snd (load_field_value Sample.schema_enum
                  ([] ++ [Sample.patch_row "OwnershipStatus" "mixed ownership" "Part-owned"])
                  initial_globals) in
  normalise_enum "OwnershipStatus" " part-OWNED!" g = (Return "mixed ownership", g).
Proof.
  intros g.
  apply (last_enum_patch_row_wins Sample.schema_enum []
           (Sample.patch_row "OwnershipStatus" "mixed ownership" "Part-owned")
           initial_globals g "OwnershipStatus" "mixed ownership" "Part-owned"
           " part-OWNED!");
    vm_compute; reflexivity.
Defined.

Lemma undeclared_enum_token_aborts_witness :
  main Sample.schema_enum Sample.transform_nowhere Sample.url_any Sample.re_sub_unused
       [ <["OwnershipStatus" := "mixed ownership"]> {["Notes" := "n/a"]} ] [] []
       ([] ++ Sample.patch_row "OwnershipStatus" "private" "privately owned" :: [])
    = {| written := None;
         error := Some (ValueError (invalid_enum_message "OwnershipStatus" "private"));
         final := snd (load_field_value Sample.schema_enum [] initial_globals) |} ∧
  log (snd (load_field_value Sample.schema_enum [] initial_globals)) = [] ∧
  row_number (snd (load_field_value Sample.schema_enum [] initial_globals)) = 0%N.
Proof.
  apply (undeclared_enum_token_aborts
           Sample.schema_enum Sample.transform_nowhere Sample.url_any Sample.re_sub_unused
           [ <["OwnershipStatus" := "mixed ownership"]> {["Notes" := "n/a"]} ] [] []
           [] (Sample.patch_row "OwnershipStatus" "private" "privately owned") []
           initial_globals (snd (load_field_value Sample.schema_enum [] initial_globals))
           "OwnershipStatus" "private" "privately owned"
           (<["owned by a public authority" := "owned by a public authority"]>
              {["mixed ownership" := "mixed ownership"]}));
    vm_compute; reflexivity.
Defined.

Lemma normalise_returns_witness :
  ∃ s g',
    normalise Sample.schema_enum Sample.url_any Sample.re_sub_unused
      "OwnershipStatus" "leasehold" (set_field (Some "OwnershipStatus") initial_globals)
    = (Return s, g').
Proof.
  apply (normalise_returns Sample.schema_enum Sample.url_any Sample.re_sub_unused
           "OwnershipStatus"
           {| name := "OwnershipStatus"; type := "string"; format := "";
              constraints_enum := Some ["owned by a public authority"; "mixed ownership"];
              digital_land := Sample.no_extension |}
           "leasehold" (set_field (Some "OwnershipStatus") initial_globals)).
  - reflexivity.
  - discriminate.
  - now eexists.
  - intros v. now eexists.
Defined.

(** ** The organisation index holds registry URIs only *)

Lemma preserves_sound_organisation_uri_set csv k uri :
  registry_uri csv uri →
  preserves (organisation_index_sound csv) (organisation_uri_set k uri).
Proof.
  intros Huri g r g' HI H. inversion H; subst. intros k' uri'. simpl.
  destruct (decide (k = k')) as [->|Hne].
  - rewrite lookup_insert_eq. now intros [= <-].
  - rewrite lookup_insert_ne by done. apply HI.
Qed.

Lemma load_organisation_rows_sound csv rows :
  ∀ (organisation : gmap string row) g res g',
    (∀ r, r ∈ rows → r ∈ csv) →
    (∀ k r, organisation !! k = Some r → r ∈ csv) →
    organisation_index_sound csv g →
    load_organisation_rows rows organisation g = (res, g') →
    organisation_index_sound csv g' ∧
    ∀ organisation' : gmap string row,
      res = Return organisation' → ∀ k r, organisation' !! k = Some r → r ∈ csv.
Proof.
  induction rows as [|r rows IH]; intros organisation g res g' Hrows Horg HI;
    cbn [load_organisation_rows].
  - intros H. inversion H; subst. split; [exact HI|]. intros o [= <-]. exact Horg.
  - unfold bind at 1, lift at 1, getitem.
    destruct (r !! "organisation") as [org|];
      [|intros H; inversion H; subst; split; [exact HI|discriminate]].
    assert (Hr : r ∈ csv) by (apply Hrows; left).
    assert (Horg' : ∀ k r0, <[org := r]> organisation !! k = Some r0 → r0 ∈ csv).
    { intros k r0. destruct (decide (org = k)) as [->|Hne].
      - rewrite lookup_insert_eq. now intros [= <-].
      - rewrite lookup_insert_ne by done. apply Horg. }
    assert (Hstep : preserves (organisation_index_sound csv)
      (match r !! "opendatacommunities" with
       | Some odc =>
           let uri := Py.lower odc in
           bind (organisation_uri_set (Py.lower org) uri) (λ _,
           bind (organisation_uri_set uri uri) (λ _,
           bind (organisation_uri_set (end_of_uri uri) uri) (λ _,
           bind (lift (getitem r "statistical-geography")) (λ sg,
           bind (organisation_uri_set (Py.lower sg) uri) (λ _,
             if Py.contains "local-authority-eng" org
             then
               let dl_url :=
                 "https://digital-land.github.io/organisation/" +:+ org +:+ "/" in
               let dl_url := Py.replace "-eng:" "-eng/" (Py.lower dl_url) in
               organisation_uri_set dl_url uri
             else ret ())))))
       | None => ret ()
       end)).
    { destruct (r !! "opendatacommunities") as [odc|] eqn:Hodc; [|apply preserves_ret].
      assert (Huri : registry_uri csv (Py.lower odc)) by (exists r, odc; auto).
      cbv zeta.
      repeat (apply preserves_bind;
              [first [now apply preserves_sound_organisation_uri_set
                     |apply preserves_lift]|intros ?]).
      destruct (Py.contains _ _);
        [now apply preserves_sound_organisation_uri_set|apply preserves_ret]. }
    unfold bind at 1.
    match goal with
    | |- context [match ?m g with _ => _ end] => destruct (m g) as [[[]|e] g1] eqn:Hm
    end.
    + intros H. apply (IH _ _ _ _ (λ r0 Hr0, Hrows r0 (list_elem_of_further _ _ _ Hr0))
                          Horg' (Hstep _ _ _ HI Hm) H).
    + intros H. inversion H; subst. split; [exact (Hstep _ _ _ HI Hm)|discriminate].
Qed.

Lemma load_organisations_sound csv patch_csv g res g' :
  organisation_index_sound csv g →
  load_organisations csv patch_csv g = (res, g') →
  organisation_index_sound csv g'.
Proof.
  intros HI. unfold load_organisations. unfold bind at 1.
  assert (Hempty : ∀ k (r : row), (∅ : gmap string row) !! k = Some r → r ∈ csv)
    by (intros k r; rewrite lookup_empty; discriminate).
  destruct (load_organisation_rows csv ∅ g) as [[organisation|e] g1] eqn:Hrows;
    destruct (load_organisation_rows_sound csv csv ∅ g _ g1 (λ _ H, H) Hempty HI Hrows)
      as [HI1 Horg].
  - specialize (Horg organisation eq_refl).
    apply (preserves_for_each (organisation_index_sound csv)); [|exact HI1].
    intros r _. unfold bind, lift, getitem.
    intros g2 res2 g2' HI2.
    destruct (r !! "value") as [v|]; [|intros H; now inversion H; subst].
    destruct (r !! "organisation") as [org|]; [|intros H; now inversion H; subst].
    destruct (negb (Py.is_empty org)); [|intros H; now inversion H; subst].
    destruct (organisation !! org) as [orow|] eqn:Horow; [|intros H; now inversion H; subst].
    destruct (orow !! "opendatacommunities") as [odc|] eqn:Hodc;
      [|intros H; now inversion H; subst].
    apply preserves_sound_organisation_uri_set; [|exact HI2].
    exists orow, odc. split; [exact (Horg _ _ Horow)|]. auto.
  - intros H. inversion H; subst. exact HI1.
Qed.

(** Starting from an empty index, whatever the two organisation files hold
    and whether or not loading them succeeds, the organisation resolver
    afterwards returns the empty string or the [opendatacommunities] value
    of a row of the organisation file, as written there or lower-cased: it
    never returns part of the raw value or of a patch row. *)
Theorem normalise_organisation_uri_returns_registry_uri
    organisation_csv patch_csv g0 res g fieldname fieldvalue uri g' :
  organisation_uri g0 = ∅ →
  load_organisations organisation_csv patch_csv g0 = (res, g) →
  normalise_organisation_uri fieldname fieldvalue g = (Return uri, g') →
  uri = "" ∨ registry_uri organisation_csv uri.
Proof.
  intros H0 Hload.
  assert (Hsound : organisation_index_sound organisation_csv g).
  { apply (load_organisations_sound organisation_csv patch_csv g0 res g); [|exact Hload].
    intros k u. rewrite H0, lookup_empty. discriminate. }
  unfold normalise_organisation_uri.
  destruct (organisation_uri g !! lower_uri fieldvalue) as [u|] eqn:H1.
  - intros [= <- _]. right. exact (Hsound _ _ H1).
  - destruct (organisation_uri g !! end_of_uri (lower_uri fieldvalue)) as [u|] eqn:H2.
    + intros [= <- _]. right. exact (Hsound _ _ H2).
    + rewrite log_then_empty. intros [= <- _]. now left.
Qed.

Lemma normalise_organisation_uri_returns_registry_uri_witness :
  "http://opendatacommunities.org/id/london-borough-council/lambeth" = "" ∨
  registry_uri [Sample.organisation_row]
    "http://opendatacommunities.org/id/london-borough-council/lambeth".
Proof.
  apply (normalise_organisation_uri_returns_registry_uri
           [Sample.organisation_row] [] initial_globals (Return ())
           (snd (load_organisations [Sample.organisation_row] [] initial_globals))
           "OrganisationURI" " https://example.org/x/LAMBETH/ "
           "http://opendatacommunities.org/id/london-borough-council/lambeth"
           (snd (load_organisations [Sample.organisation_row] [] initial_globals)));
    vm_compute; reflexivity.
Defined.

(** The keys a row of the organisation file is found under: its code, its
    URI, the last segment of the URI and its statistical geography, in any
    case and with white space anywhere, and for a local authority the
    digital-land URL of its code. *)
Example organisation_row_keys :
  let g := snd (load_organisations [Sample.organisation_row] [] initial_globals) in
  let uri := "http://opendatacommunities.org/id/london-borough-council/lambeth" in
  Forall (λ raw, normalise_organisation_uri "OrganisationURI" raw g = (Return uri, g))
    [ "local-authority-eng:LBH"; "Lambeth"; "e09000022"; " E0900 0022 ";
      "http://opendatacommunities.org/id/london-borough-council/Lambeth/";
      "https://digital-land.github.io/organisation/local-authority-eng/LBH/" ].
Proof.
  intros g uri.
  repeat (apply Forall_cons; split; [vm_compute; reflexivity|]).
  apply Forall_nil_2.
Qed.

(** ** The enum key is canonical *)

Lemma append_cons c s t : String c s +:+ t = String c (s +:+ t).
Proof. reflexivity. Qed.

Lemma append_empty_l t : "" +:+ t = t.
Proof. reflexivity. Qed.

Lemma sall_app q s t : Py.sall q (s +:+ t) = Py.sall q s && Py.sall q t.
Proof.
  induction s as [|c s IH]; [reflexivity|].
  rewrite append_cons. simpl. now rewrite IH, andb_assoc.
Qed.

Lemma fields_nonempty p s : ∃ w ws, Py.fields p s = w :: ws.
Proof.
  induction s as [|c s (w & ws & IH)]; simpl; [eauto|].
  destruct (p c); [eauto|]. rewrite IH. eauto.
Qed.

(** the pieces keep the characters of the text, and hold no separator *)
Lemma fields_chars p q s :
  Py.sall q s = true → Forall (λ w, Py.sall q w = true) (Py.fields p s).
Proof.
  induction s as [|c s IH]; simpl; [repeat constructor|].
  intros H. apply andb_true_iff in H as [Hc Hs]. specialize (IH Hs).
  destruct (p c); [now constructor|].
  destruct (Py.fields p s) as [|w ws]; [repeat constructor; simpl; now rewrite Hc|].
  inversion IH; subst. constructor; [simpl; now rewrite Hc|assumption].
Qed.

Lemma fields_no_separator p s :
  Forall (λ w, Py.sall (λ c, negb (p c)) w = true) (Py.fields p s).
Proof.
  induction s as [|c s IH]; simpl; [repeat constructor|].
  destruct (p c) eqn:Hc; [now constructor|].
  destruct (Py.fields p s) as [|w ws]; [repeat constructor; simpl; now rewrite Hc|].
  inversion IH; subst. constructor; [simpl; now rewrite Hc|assumption].
Qed.

Lemma fields_of_piece p w :
  Py.sall (λ c, negb (p c)) w = true → Py.fields p w = [w].
Proof.
  induction w as [|c w IH]; simpl; [reflexivity|].
  intros H. apply andb_true_iff in H as [Hc Hw].
  apply negb_true_iff in Hc. now rewrite Hc, (IH Hw).
Qed.

Lemma fields_piece_then_separator p w c t :
  Py.sall (λ c, negb (p c)) w = true → p c = true →
  Py.fields p (w +:+ String c t) = w :: Py.fields p t.
Proof.
  intros Hw Hc. induction w as [|a w IH].
  - rewrite append_empty_l. simpl. now rewrite Hc.
  - rewrite append_cons. simpl in *. apply andb_true_iff in Hw as [Ha Hw].
    apply negb_true_iff in Ha. now rewrite Ha, (IH Hw).
Qed.

(** splitting what was joined by single spaces gives the words back *)
Lemma split_join ws :
  Forall (λ w, w ≠ "" ∧ Py.sall (λ c, negb (Py.isspace c)) w = true) ws →
  Py.split (Py.join " " ws) = ws.
Proof.
  unfold Py.split. induction 1 as [|w ws [Hne Hw] Hall IH]; [reflexivity|].
  destruct ws as [|w' ws].
  - simpl Py.join. rewrite (fields_of_piece _ _ Hw).
    now rewrite filter_cons_True, filter_nil.
  - change (Py.join " " (w :: w' :: ws))
      with (w +:+ String " " (Py.join " " (w' :: ws))).
    rewrite (fields_piece_then_separator _ _ _ _ Hw) by reflexivity.
    now rewrite filter_cons_True, IH.
Qed.

Lemma split_words s :
  Forall (λ w, w ≠ "" ∧ Py.sall (λ c, negb (Py.isspace c)) w = true) (Py.split s).
Proof.
  unfold Py.split. apply Forall_forall. intros w Hw.
  apply list_elem_of_filter in Hw as [Hne Hw]. split; [exact Hne|].
  exact (proj1 (Forall_forall _ _) (fields_no_separator Py.isspace s) w Hw).
Qed.

Lemma split_chars q s :
  Py.sall q s = true → Forall (λ w, Py.sall q w = true) (Py.split s).
Proof.
  intros H. unfold Py.split. apply Forall_forall. intros w Hw.
  apply list_elem_of_filter in Hw as [_ Hw].
  exact (proj1 (Forall_forall _ _) (fields_chars Py.isspace q s H) w Hw).
Qed.

Lemma join_chars q sep ws :
  Py.sall q sep = true → Forall (λ w, Py.sall q w = true) ws →
  Py.sall q (Py.join sep ws) = true.
Proof.
  intros Hsep. induction 1 as [|w ws Hw Hall IH]; [reflexivity|].
  destruct ws as [|w' ws]; [exact Hw|].
  change (Py.join sep (w :: w' :: ws)) with (w +:+ sep +:+ Py.join sep (w' :: ws)).
  now rewrite !sall_app, Hw, Hsep, IH.
Qed.

Lemma sub_not_enum_chars b s : Py.sall Re.enum_char (Re.sub_not_enum b s) = true.
Proof.
  revert b. induction s as [|c s IH]; intros b; simpl; [reflexivity|].
  destruct (Re.enum_char c) eqn:Hc; simpl; [now rewrite Hc, IH|].
  destruct b; [apply IH|]. simpl. apply IH.
Qed.

Lemma sub_not_enum_fixed b s :
  Py.sall Re.enum_char s = true → Re.sub_not_enum b s = s.
Proof.
  revert b. induction s as [|c s IH]; intros b; simpl; [reflexivity|].
  intros H. apply andb_true_iff in H as [Hc Hs]. now rewrite Hc, (IH false Hs).
Qed.

Lemma lower_char_enum c : Re.enum_char c = true → Py.lower_char c = c.
Proof.
  destruct c as [[] [] [] [] [] [] [] []]; vm_compute; intros H;
    first [reflexivity | discriminate H].
Qed.

Lemma lower_fixed s : Py.sall Re.enum_char s = true → Py.lower s = s.
Proof.
  induction s as [|c s IH]; simpl; [reflexivity|].
  intros H. apply andb_true_iff in H as [Hc Hs].
  unfold Py.lower in *. simpl. now rewrite (lower_char_enum c Hc), (IH Hs).
Qed.

(** The key of a raw value is made of the characters of the class only,
    and it is its own key: normalising a key changes nothing, so a value
    that is already in key form, a key of the index for one, finds itself. *)
Theorem normalise_enum_value_idempotent raw :
  Py.sall Re.enum_char (normalise_enum_value raw) = true ∧
  normalise_enum_value (normalise_enum_value raw) = normalise_enum_value raw.
Proof.
  assert (Hchars : Py.sall Re.enum_char (normalise_enum_value raw) = true).
  { unfold normalise_enum_value. apply join_chars; [reflexivity|].
    apply split_chars, sub_not_enum_chars. }
  split; [exact Hchars|].
  unfold normalise_enum_value at 1.
  rewrite (lower_fixed _ Hchars), (sub_not_enum_fixed false _ Hchars).
  unfold normalise_enum_value. f_equal. apply split_join, split_words.
Qed.

(** ** The URI normaliser *)

(** A non-empty result of [normalise_uri] is the raw value without its
    white space: no white-space character is left in it, line breaks
    inside the value included; it is a string the validator accepted, and
    nothing was logged for it. *)
Theorem normalise_uri_result validators_url fieldname value g uri g' :
  normalise_uri validators_url fieldname value g = (Return uri, g') →
  uri ≠ "" →
  Py.sall (λ c, negb (Py.isspace c)) uri = true ∧
  validators_url uri = true ∧
  uri = Py.sfilter (λ c, negb (Py.isspace c)) value ∧
  g' = g.
Proof.
  unfold normalise_uri.
  destruct (validators_url (Py.join "" (Py.split value))) eqn:Hv.
  - intros [= <- <-] _. split; [|split; [exact Hv|split; [|reflexivity]]].
    + apply join_chars; [reflexivity|].
      eapply Forall_impl; [apply split_words|]. now intros w [_ Hw].
    + unfold Py.split. clear Hv. induction value as [|c s IH]; [reflexivity|].
      simpl Py.fields. simpl Py.sfilter.
      destruct (fields_nonempty Py.isspace s) as (w & ws & Hf). rewrite Hf in *.
      destruct (Py.isspace c); simpl negb; cbv iota.
      * now rewrite filter_skip_empty.
      * rewrite filter_keep_cons. rewrite <- IH.
        destruct w as [|a w]; [now rewrite filter_skip_empty; destruct (filter _ ws)|].
        rewrite filter_keep_cons. now destruct (filter _ ws).
  - rewrite log_then_empty. intros [= <- _] Hne. now contradiction Hne.
Qed.

Lemma normalise_uri_result_witness :
  Py.sall (λ c, negb (Py.isspace c)) "https://example.org/plan.pdf" = true ∧
  Sample.url_any "https://example.org/plan.pdf" = true ∧
  "https://example.org/plan.pdf"
    = Py.sfilter (λ c, negb (Py.isspace c)) " https://example.org/ plan.pdf" ∧
  initial_globals = initial_globals.
Proof.
  apply (normalise_uri_result Sample.url_any "PlanningHistory"
           " https://example.org/ plan.pdf" initial_globals
           "https://example.org/plan.pdf" initial_globals).
  - vm_compute. reflexivity.
  - discriminate.
Defined.

(** ** The dates [normalise_date] returns *)

Lemma strptime_valid value fmt d :
  Strptime.strptime value fmt = Return d →
  Strptime.valid_date (Strptime.year d) (Strptime.month d) (Strptime.day d) = true.
Proof.
  unfold Strptime.strptime.
  destruct (Strptime.match_seq _ _ _) as [|[found rest] _]; [discriminate|].
  destruct (Py.is_empty rest); [|discriminate].
  unfold Strptime.date_of_found.
  destruct (Strptime.valid_date _ _ _ && _) eqn:Hv; [|discriminate].
  intros [= <-]. simpl. now apply andb_true_iff in Hv as [Hv _].
Qed.

Lemma try_patterns_some patterns value s :
  try_patterns patterns value = Some s →
  ∃ pattern d, pattern ∈ patterns ∧ Strptime.strptime value pattern = Return d ∧
               s = Strptime.strftime d.
Proof.
  induction patterns as [|p patterns IH]; simpl; [discriminate|].
  destruct (Strptime.strptime value p) as [d|] eqn:Hp.
  - intros [= <-]. exists p, d. split; [left|auto].
  - intros H. destruct (IH H) as (q & d & Hq & Hd & Hs).
    exists q, d. split; [now right|auto].
Qed.

(** Whatever the raw value, a date [normalise_date] returns is a day of the
    calendar, written year-month-day: the month is between 1 and 12 and the
    day exists in that month of that year, leap years counted.  A value
    that only looks like a date, the thirtieth of February or the
    twenty-ninth in a common year, is logged instead. *)
Theorem normalise_date_returns_calendar_day context fieldvalue g s g' :
  normalise_date context fieldvalue g = (Return s, g') →
  s ≠ "" →
  ∃ d, s = Strptime.strftime d ∧
       (1 <= Strptime.year d <= 9999)%N ∧ (1 <= Strptime.month d <= 12)%N ∧
       (1 <= Strptime.day d
        <= Strptime.days_in_month (Strptime.year d) (Strptime.month d))%N ∧
       g' = g.
Proof.
  unfold normalise_date.
  destruct (try_patterns _ _) as [s'|] eqn:Htry.
  - intros [= <- <-] _. apply try_patterns_some in Htry as (p & d & _ & Hd & ->).
    exists d. split; [reflexivity|]. apply strptime_valid in Hd.
    unfold Strptime.valid_date in Hd.
    repeat (apply andb_true_iff in Hd as [Hd ?]).
    repeat match goal with H : (_ <=? _)%N = true |- _ => apply N.leb_le in H end.
    auto.
  - destruct (field g); [|discriminate].
    rewrite log_then_empty. intros [= <- _] Hne. now contradiction Hne.
Qed.

Lemma normalise_date_returns_calendar_day_witness :
  ∃ d, "2020-02-29" = Strptime.strftime d ∧
       (1 <= Strptime.year d <= 9999)%N ∧ (1 <= Strptime.month d <= 12)%N ∧
       (1 <= Strptime.day d
        <= Strptime.days_in_month (Strptime.year d) (Strptime.month d))%N ∧
       initial_globals = initial_globals.
Proof.
  apply (normalise_date_returns_calendar_day "StartDate" "29 February 2020"
           initial_globals "2020-02-29" initial_globals).
  - vm_compute. reflexivity.
  - discriminate.
Defined.

(** The twenty-ninth of February of a common year is no date to any
    pattern. *)
Example normalise_date_refuses_29_february_2019 :
  normalise_date "StartDate" "29/02/2019" (set_field (Some "StartDate") initial_globals)
  = (Return "", logged (set_field (Some "StartDate") initial_globals)
                  "StartDate" "date" "29/02/2019").
Proof. vm_compute. reflexivity. Qed.

(** *** A canonical date is its own normal form *)

Lemma forallb_N_range (f : N → bool) (lo len : N) :
  forallb f (map N.of_nat (seq (N.to_nat lo) (N.to_nat len))) = true →
  ∀ n : N, (lo <= n < lo + len)%N → f n = true.
Proof.
  intros H n Hn. rewrite forallb_forall in H. apply H.
  apply in_map_iff. exists (N.to_nat n). split; [apply N2Nat.id|].
  apply in_seq. lia.
Qed.

(** a year from 1000 on is written with its four digits *)
Lemma year_digits y :
  (1000 <= y <= 9999)%N →
  ∃ a b c e,
    Py.str_of_N y = String a (String b (String c (String e ""))) ∧
    Py.isdigit a = true ∧ Py.isdigit b = true ∧ Py.isdigit c = true ∧
    Py.isdigit e = true ∧
    Py.N_of_digits (String a (String b (String c (String e "")))) = y.
Proof.
  intros Hy.
  assert (Hall : forallb
    (λ y, match Py.str_of_N y with
          | String a (String b (String c (String e ""))) =>
              Py.isdigit a && Py.isdigit b && Py.isdigit c && Py.isdigit e &&
              (Py.N_of_digits (String a (String b (String c (String e "")))) =? y)%N
          | _ => false
          end) (map N.of_nat (seq (N.to_nat 1000) (N.to_nat 9000))) = true)
    by (vm_compute; reflexivity).
  pose proof (forallb_N_range _ _ _ Hall y ltac:(lia)) as H. cbv beta in H.
  clear Hall.
  destruct (Py.str_of_N y) as [|a [|b [|c [|e [|]]]]]; try discriminate H.
  apply andb_true_iff in H as [H Hval]. apply andb_true_iff in H as [H He].
  apply andb_true_iff in H as [H Hc]. apply andb_true_iff in H as [Ha Hb].
  exists a, b, c, e. repeat split; try assumption. now apply N.eqb_eq.
Qed.

Lemma map_flat_map {A B C} (g : B → C) (h : A → list B) (l : list A) :
  map g (flat_map h l) = flat_map (λ x, map g (h x)) l.
Proof. induction l as [|x l IH]; simpl; [reflexivity|]. now rewrite map_app, IH. Qed.

(** the groups found so far do not steer the matcher *)
Lemma match_seq_found ds :
  ∀ found s,
    Strptime.match_seq ds found s
    = map (λ '(f, r), (f ++ found, r)) (Strptime.match_seq ds [] s).
Proof.
  induction ds as [|[k|c|] ds IH]; intros found s; cbn [Strptime.match_seq].
  - reflexivity.
  - rewrite map_flat_map. apply flat_map_ext. intros [v r].
    rewrite (IH ((k, v) :: found)), (IH [(k, v)]), map_map.
    apply map_ext. intros [f r']. now rewrite <- app_assoc.
  - destruct s as [|a r]; [reflexivity|].
    destruct (Ascii.eqb _ _); [apply IH|reflexivity].
  - rewrite map_flat_map. apply flat_map_ext. intros r. apply IH.
Qed.

Lemma month_day_tail m dd :
  (1 <= m <= 12)%N → (1 <= dd <= 31)%N →
  let tail := "-" +:+ Strptime.pad2 m +:+ "-" +:+ Strptime.pad2 dd in
  hd_error (Strptime.match_seq
              [Strptime.Lit "-"; Strptime.Dir "m"; Strptime.Lit "-"; Strptime.Dir "d"]
              [] tail)
    = Some ([("d"%char, dd); ("m"%char, m)], "") ∧
  Py.rstrip date_strip_chars tail = tail ∧ tail ≠ "".
Proof.
  intros Hm Hd.
  assert (Hall : forallb (λ m, forallb (λ dd,
    let tail := "-" +:+ Strptime.pad2 m +:+ "-" +:+ Strptime.pad2 dd in
    bool_decide
      (hd_error (Strptime.match_seq
                   [Strptime.Lit "-"; Strptime.Dir "m"; Strptime.Lit "-";
                    Strptime.Dir "d"] [] tail)
       = Some ([("d"%char, dd); ("m"%char, m)], "")) &&
    bool_decide (Py.rstrip date_strip_chars tail = tail) &&
    negb (Py.is_empty tail))
      (map N.of_nat (seq (N.to_nat 1) (N.to_nat 31))))
      (map N.of_nat (seq (N.to_nat 1) (N.to_nat 12))) = true)
    by (vm_compute; reflexivity).
  pose proof (forallb_N_range _ _ _ Hall m ltac:(lia)) as H1. cbv beta in H1.
  pose proof (forallb_N_range _ _ _ H1 dd ltac:(lia)) as H2. cbv beta zeta in H2.
  clear Hall H1.
  apply andb_true_iff in H2 as [H2 H3]. apply andb_true_iff in H2 as [H2 H4].
  apply bool_decide_eq_true in H2, H4. apply negb_true_iff, is_empty_false in H3.
  auto.
Qed.

Lemma rstrip_cons_kept p c t :
  Py.rstrip p t = t → t ≠ "" → Py.rstrip p (String c t) = String c t.
Proof.
  intros Ht Hne. simpl. rewrite Ht.
  apply is_empty_false in Hne. rewrite Hne. now rewrite andb_false_r.
Qed.

Lemma lstrip_cons_kept p c t : p c = false → Py.lstrip p (String c t) = String c t.
Proof. intros H. simpl. now rewrite H. Qed.

Lemma digit_not_stripped c : Py.isdigit c = true → date_strip_chars c = false.
Proof.
  destruct c as [[] [] [] [] [] [] [] []]; vm_compute; intros H;
    first [reflexivity | discriminate H].
Qed.

Lemma days_in_month_bound y m : (Strptime.days_in_month y m <= 31)%N.
Proof.
  unfold Strptime.days_in_month.
  destruct m as [|p]; [lia|].
  do 4 (try destruct p as [p|p|]); try destruct (Strptime.is_leap y); lia.
Qed.

Lemma strptime_canonical d :
  Strptime.valid_date (Strptime.year d) (Strptime.month d) (Strptime.day d) = true →
  (1000 <= Strptime.year d)%N →
  Py.strip date_strip_chars (Strptime.strftime d) = Strptime.strftime d ∧
  Strptime.strptime (Strptime.strftime d) "%Y-%m-%d" = Return d.
Proof.
  destruct d as [y m dd]. cbn [Strptime.year Strptime.month Strptime.day].
  intros Hvalid Hy. pose proof Hvalid as Hv.
  unfold Strptime.valid_date in Hv.
  repeat (apply andb_true_iff in Hv as [Hv ?]).
  repeat match goal with H : (_ <=? _)%N = true |- _ => apply N.leb_le in H end.
  pose proof (days_in_month_bound y m) as Hdim.
  destruct (year_digits y ltac:(lia)) as (a & b & c & e & Hstr & Ha & Hb & Hc & He & Hval).
  destruct (month_day_tail m dd ltac:(lia) ltac:(lia)) as (Hparse & Hrstrip & Hne).
  cbv zeta in Hparse, Hrstrip, Hne.
  unfold Strptime.strftime. cbn [Strptime.year Strptime.month Strptime.day].
  rewrite Hstr.
  set (tail := "-" +:+ Strptime.pad2 m +:+ "-" +:+ Strptime.pad2 dd) in *.
  change (String a (String b (String c (String e ""))) +:+ tail)
    with (String a (String b (String c (String e tail)))).
  split.
  - unfold Py.strip. rewrite (lstrip_cons_kept _ a _ (digit_not_stripped a Ha)).
    repeat (apply rstrip_cons_kept; [|discriminate]). exact Hrstrip.
  - unfold Strptime.strptime.
    change (Strptime.parse_format false "%Y-%m-%d")
      with [Strptime.Dir "Y"; Strptime.Lit "-"; Strptime.Dir "m"; Strptime.Lit "-";
            Strptime.Dir "d"].
    change (Strptime.match_seq
              [Strptime.Dir "Y"; Strptime.Lit "-"; Strptime.Dir "m"; Strptime.Lit "-";
               Strptime.Dir "d"] [] (String a (String b (String c (String e tail)))))
      with (flat_map
              (λ '(v, r),
                 Strptime.match_seq
                   [Strptime.Lit "-"; Strptime.Dir "m"; Strptime.Lit "-"; Strptime.Dir "d"]
                   [("Y"%char, v)] r)
              (Strptime.four_digits (String a (String b (String c (String e tail)))))).
    unfold Strptime.four_digits. rewrite Ha, Hb, Hc, He. cbn [andb flat_map].
    rewrite app_nil_r.
    rewrite (match_seq_found
               [Strptime.Lit "-"; Strptime.Dir "m"; Strptime.Lit "-"; Strptime.Dir "d"]).
    destruct (Strptime.match_seq
                [Strptime.Lit "-"; Strptime.Dir "m"; Strptime.Lit "-"; Strptime.Dir "d"]
                [] tail) as [|[found rest] others]; [discriminate|].
    injection Hparse as -> ->. cbn [map Py.is_empty app].
    unfold Strptime.date_of_found. cbn [Strptime.group Ascii.eqb Bool.eqb].
    cbn [Strptime.or_else from_option id]. rewrite Hval, Hvalid. reflexivity.
Qed.

(** A date in the canonical form, with a year from 1000 on, normalises to
    itself, whatever the state, and nothing is logged: the first pattern
    reads it back.  (A year below 1000 is written without leading zeros and
    is no longer four digits for [%Y].) *)
Theorem normalise_date_idempotent context d g :
  Strptime.valid_date (Strptime.year d) (Strptime.month d) (Strptime.day d) = true →
  (1000 <= Strptime.year d)%N →
  normalise_date context (Strptime.strftime d) g = (Return (Strptime.strftime d), g).
Proof.
  intros Hvalid Hy. destruct (strptime_canonical d Hvalid Hy) as [Hstrip Hparse].
  unfold normalise_date. rewrite Hstrip.
  unfold date_patterns. cbn [try_patterns]. now rewrite Hparse.
Qed.

Lemma normalise_date_idempotent_witness :
  normalise_date "StartDate"
    (Strptime.strftime {| Strptime.year := 2020; Strptime.month := 2; Strptime.day := 29 |})
    initial_globals
  = (Return (Strptime.strftime
               {| Strptime.year := 2020; Strptime.month := 2; Strptime.day := 29 |}),
     initial_globals).
Proof.
  apply (normalise_date_idempotent "StartDate"
           {| Strptime.year := 2020; Strptime.month := 2; Strptime.day := 29 |}
           initial_globals).
  - vm_compute. reflexivity.
  - vm_compute. discriminate.
Defined.

(** Below the year 1000 the canonical form does not read back. *)
Example normalise_date_year_999 :
  normalise_date "StartDate" "0999-01-02" initial_globals
    = (Return "999-01-02", initial_globals) ∧
  try_patterns date_patterns "999-01-02" = None.
Proof. split; vm_compute; reflexivity. Qed.

(** ** The integer normaliser reads back what it writes *)

Lemma int_digits_acc (d : Decimal.uint) (acc : positive) :
  Py.int_digits true (Npos acc) (NilEmpty.string_of_uint d)
  = Some (Npos (Pos.of_uint_acc d acc)).
Proof.
  revert acc.
  induction d as [|d IH|d IH|d IH|d IH|d IH|d IH|d IH|d IH|d IH|d IH];
    intros acc; [reflexivity|..];
    cbn [NilEmpty.string_of_uint Py.int_digits Pos.of_uint_acc];
    (match goal with
     | |- context [Py.isdigit ?c] =>
         change (Py.isdigit c) with true; cbv iota
     end);
    (match goal with
     | |- Py.int_digits true ?n _ = Some (Npos (Pos.of_uint_acc _ ?p)) =>
         replace n with (Npos p) by (unfold Py.digit_val, Py.ord; cbn; lia)
     end);
    apply IH.
Qed.

Lemma int_digits_uint (d : Decimal.uint) (b : bool) :
  d ≠ Decimal.Nil ∨ b = true →
  Py.int_digits b 0%N (NilEmpty.string_of_uint d) = Some (Pos.of_uint d).
Proof.
  revert b.
  induction d as [|d IH|d IH|d IH|d IH|d IH|d IH|d IH|d IH|d IH|d IH];
    intros b Hb.
  - destruct Hb as [Hb| ->]; [contradiction|reflexivity].
  - cbn [NilEmpty.string_of_uint Py.int_digits Pos.of_uint].
    change (Py.isdigit "0") with true. cbv iota.
    change (10 * 0 + Py.digit_val "0")%N with 0%N.
    apply IH. now right.
  - apply (int_digits_acc d 1).
  - apply (int_digits_acc d 2).
  - apply (int_digits_acc d 3).
  - apply (int_digits_acc d 4).
  - apply (int_digits_acc d 5).
  - apply (int_digits_acc d 6).
  - apply (int_digits_acc d 7).
  - apply (int_digits_acc d 8).
  - apply (int_digits_acc d 9).
Qed.

Lemma nilzero_nonnil (d : Decimal.uint) :
  d ≠ Decimal.Nil → NilZero.string_of_uint d = NilEmpty.string_of_uint d.
Proof. destruct d; [contradiction|reflexivity..]. Qed.

Lemma uint_all_digits (d : Decimal.uint) :
  Py.sall Py.isdigit (NilEmpty.string_of_uint d) = true.
Proof.
  induction d; cbn [NilEmpty.string_of_uint Py.sall]; [reflexivity|..];
    rewrite IHd; reflexivity.
Qed.

Lemma sall_impl (p q : ascii → bool) (s : string) :
  (∀ c, p c = true → q c = true) → Py.sall p s = true → Py.sall q s = true.
Proof.
  intros Hpq. induction s as [|c s IH]; cbn [Py.sall]; [done|].
  intros [Hc Hs]%andb_true_iff. rewrite (Hpq c Hc), (IH Hs). reflexivity.
Qed.

Lemma lstrip_kept (p : ascii → bool) (s : string) :
  Py.sall (λ c, negb (p c)) s = true → Py.lstrip p s = s.
Proof.
  destruct s as [|c s]; cbn [Py.sall Py.lstrip]; [done|].
  intros [Hc _]%andb_true_iff. apply negb_true_iff in Hc. now rewrite Hc.
Qed.

Lemma rstrip_kept (p : ascii → bool) (s : string) :
  Py.sall (λ c, negb (p c)) s = true → Py.rstrip p s = s.
Proof.
  induction s as [|c s IH]; cbn [Py.sall Py.rstrip]; [done|].
  intros [Hc Hs]%andb_true_iff. apply negb_true_iff in Hc.
  rewrite Hc, (IH Hs). reflexivity.
Qed.

Lemma strip_kept (p : ascii → bool) (s : string) :
  Py.sall (λ c, negb (p c)) s = true → Py.strip p s = s.
Proof.
  intros H. unfold Py.strip. rewrite (lstrip_kept p s H). now apply rstrip_kept.
Qed.

Lemma sub_dot_zeros_kept (s : string) :
  Py.sall (λ c, negb (Ascii.eqb c ".")) s = true → Re.sub_dot_zeros s = s.
Proof.
  induction s as [|c s IH]; cbn [Py.sall Re.sub_dot_zeros]; [done|].
  intros [Hc Hs]%andb_true_iff. apply negb_true_iff in Hc.
  rewrite Hc, (IH Hs). reflexivity.
Qed.

Lemma digit_plain (c : ascii) :
  Py.isdigit c = true →
  Py.int_space c = false ∧ Ascii.eqb c "." = false
  ∧ Ascii.eqb c "-" = false ∧ Ascii.eqb c "+" = false.
Proof.
  destruct c as [[] [] [] [] [] [] [] []]; vm_compute; intros H;
    first [discriminate H | repeat split].
Qed.

Lemma int_of_digits (d : Decimal.uint) :
  d ≠ Decimal.Nil →
  Py.int (NilEmpty.string_of_uint d) = Return (Z.of_N (Pos.of_uint d)).
Proof.
  intros Hd. unfold Py.int.
  rewrite strip_kept
    by (apply (sall_impl Py.isdigit); [|apply uint_all_digits];
        intros c Hc; destruct (digit_plain c Hc) as [-> _]; reflexivity).
  pose proof (uint_all_digits d) as Hall.
  pose proof (int_digits_uint d false (or_introl Hd)) as Hint.
  destruct (NilEmpty.string_of_uint d) as [|c r]; [discriminate Hint|].
  cbn [Py.sall] in Hall. apply andb_true_iff in Hall as [Hc _].
  destruct (digit_plain c Hc) as (_ & _ & Hm & Hp).
  destruct c as [[] [] [] [] [] [] [] []];
    try discriminate Hm; try discriminate Hp;
    rewrite Hint; reflexivity.
Qed.

Lemma int_of_minus_digits (d : Decimal.uint) :
  d ≠ Decimal.Nil →
  Py.int (String "-" (NilEmpty.string_of_uint d))
  = Return (- Z.of_N (Pos.of_uint d))%Z.
Proof.
  intros Hd. unfold Py.int.
  rewrite strip_kept.
  - rewrite (int_digits_uint d false (or_introl Hd)). reflexivity.
  - cbn [Py.sall]. apply andb_true_iff. split; [reflexivity|].
    apply (sall_impl Py.isdigit); [|apply uint_all_digits].
    intros c Hc. destruct (digit_plain c Hc) as [-> _]. reflexivity.
Qed.

Lemma int_str (z : Z) : Py.int (Py.str_of_Z z) = Return z.
Proof.
  unfold Py.str_of_Z.
  destruct z as [|p|p]; cbn [Z.to_int NilZero.string_of_int];
    rewrite ?(nilzero_nonnil _ (DecimalPos.Unsigned.to_uint_nonnil p)).
  - reflexivity.
  - rewrite int_of_digits by apply DecimalPos.Unsigned.to_uint_nonnil.
    rewrite DecimalPos.Unsigned.of_to. reflexivity.
  - rewrite int_of_minus_digits by apply DecimalPos.Unsigned.to_uint_nonnil.
    rewrite DecimalPos.Unsigned.of_to. reflexivity.
Qed.

Lemma str_no_dot (z : Z) :
  Py.sall (λ c, negb (Ascii.eqb c ".")) (Py.str_of_Z z) = true.
Proof.
  assert (Hd : ∀ d, Py.sall (λ c, negb (Ascii.eqb c "."))
                      (NilEmpty.string_of_uint d) = true).
  { intros d. apply (sall_impl Py.isdigit); [|apply uint_all_digits].
    intros c Hc. destruct (digit_plain c Hc) as (_ & -> & _). reflexivity. }
  unfold Py.str_of_Z.
  destruct z as [|p|p]; cbn [Z.to_int NilZero.string_of_int];
    rewrite ?(nilzero_nonnil _ (DecimalPos.Unsigned.to_uint_nonnil p));
    cbn [Py.sall]; [reflexivity|apply Hd|].
  rewrite Hd. reflexivity.
Qed.

(** [int] reads back what [str] wrote, so a formatted integer passes the
    normaliser unchanged and nothing is logged for it. *)
Lemma normalise_integer_reads_back (f : string) (z : Z) (g : globals) :
  normalise_integer f (format_integer z) g = (Return (format_integer z), g).
Proof.
  unfold normalise_integer, format_integer.
  rewrite sub_dot_zeros_kept by apply str_no_dot.
  rewrite int_str. reflexivity.
Qed.

(** Whatever [normalise_integer] returned for a value, the empty string of
    a rejected value apart, it returns again when given its own result, in
    any state and for any field, and it logs nothing then: the digits
    [format_integer] writes have no white space, underscore or fraction
    left for a second pass to remove. *)
Theorem normalise_integer_idempotent (f f' v s : string) (g g' : globals) :
  fst (normalise_integer f v g) = Return s → s ≠ "" →
  normalise_integer f' s g' = (Return s, g').
Proof.
  intros H Hs. unfold normalise_integer in H.
  destruct (Py.int (Re.sub_dot_zeros v)) as [n|e].
  - cbn in H. injection H as <-. apply normalise_integer_reads_back.
  - cbn in H. congruence.
Qed.

Lemma normalise_integer_idempotent_witness :
  normalise_integer "MinNetDwellings" "1000" initial_globals
  = (Return "1000", initial_globals).
Proof.
  apply (normalise_integer_idempotent "MinNetDwellings" "MinNetDwellings"
           " 1_000.00" "1000"
           initial_globals initial_globals); [vm_compute; reflexivity|discriminate].
Defined.

(** ** The characters of a normalised address *)







